(** * Request orchestration of the OpenDota MCP server

    A shallow embedding of the request layer of
    [src/opendota_server/server.py]: the sliding-window rate limiter
    ([apply_rate_limit]), the cache key derivation ([get_cache_key] and the
    inline copy in [make_opendota_request]), the time-bounded response cache
    ([api_cache], [cleanup_cache]) and the dispatcher
    ([make_opendota_request]) with its exception handlers.

    Modelling conventions.
    - Instants and durations ([time.time()], [asyncio.sleep]) are exact
      rationals [Q]; the rounding of Python floats is not modelled.
    - A Python [dict] of request parameters is an association list in
      insertion order; a well-formed one has pairwise distinct keys.
    - [api_cache] is a finite map from key strings to [(timestamp, data)].
    - Strings are sequences of 8-bit characters, ordered lexicographically
      as Python orders [str]. *)

From Stdlib Require Import QArith Lqa.
From stdpp Require Import gmap strings list fin_maps sorting pretty.

Local Open Scope string_scope.

(** ** Values *)

(** Scalar request parameters ([Dict[str, Any]] restricted to the scalars the
    tools pass). *)
Inductive value : Type :=
  | VStr (s : string)
  | VInt (n : Z)
  | VBool (b : bool)
  | VNone.

(** [str(v)], as used by the f-string [f"{k}={v}"]. *)
Definition str (v : value) : string :=
  match v with
  | VStr s => s
  | VInt n => pretty n
  | VBool true => "True"
  | VBool false => "False"
  | VNone => "None"
  end.

(** Parsed JSON bodies, the [Dict[str, Any]] returned to the tools. *)
#[warnings="-register-all"]
Inductive json : Type :=
  | JNull
  | JBool (b : bool)
  | JNum (n : Z)
  | JStr (s : string)
  | JList (l : list json)
  | JDict (items : list (string * json)).

(** ** Parameter dictionaries *)

Module Dict.

(** [d[k] = v]: an existing key keeps its position, a new key is appended. *)
Fixpoint set (d : list (string * value)) (k : string) (v : value)
  : list (string * value) :=
  match d with
  | [] => [(k, v)]
  | (k', v') :: d' =>
      if decide (k' = k) then (k', v) :: d' else (k', v') :: set d' k v
  end.

(** [d.update(other)]. *)
Definition update (d other : list (string * value)) : list (string * value) :=
  foldl (fun acc kv => set acc kv.1 kv.2) d other.

(** Order of [sorted(params.items())]: tuples compare on the key first;
    the keys of a dict are distinct, so the values are never compared. *)
Definition item_le (p q : string * value) : Prop := String.le p.1 q.1.

#[global] Instance item_le_dec : RelDecision item_le.
Proof. intros p q. unfold item_le. apply _. Defined.

(** [sorted(d.items())]. *)
Definition sorted (d : list (string * value)) : list (string * value) :=
  merge_sort item_le d.

(** The keys of the mapping are pairwise distinct. *)
Definition wf (d : list (string * value)) : Prop := NoDup d.*1.

End Dict.

(** ** Cache keys *)

(** ["&".join(f"{k}={v}" for k, v in sorted(params.items()))] *)
Definition param_str (params : list (string * value)) : string :=
  String.concat "&" (map (fun kv => kv.1 ++ "=" ++ str kv.2) (Dict.sorted params)).

(** [get_cache_key] (lines 121-126); [None] and the empty dict are falsy. *)
Definition get_cache_key (endpoint : string)
    (params : option (list (string * value))) : string :=
  match params with
  | Some (kv :: rest) => endpoint ++ "?" ++ param_str (kv :: rest)
  | _ => endpoint
  end.

(** ** Time *)

#[global] Instance Qlt_dec : RelDecision Qlt.
Proof.
  intros x y. destruct (Qlt_le_dec x y) as [H|H]; [left; exact H|right].
  apply Qle_not_lt, H.
Defined.

#[global] Instance Qle_dec : RelDecision Qle.
Proof.
  intros x y. destruct (Qlt_le_dec y x) as [H|H]; [right|left; exact H].
  apply Qlt_not_le, H.
Defined.

(** [min(l)]: the first element that no later element is strictly below.
    Python raises on the empty list; the limiter only calls [min] on a list
    of at least [MAX_REQUESTS_PER_MINUTE] elements. *)
Definition list_min (l : list Q) : Q :=
  match l with
  | [] => 0%Q
  | t :: ts => foldl (fun m x => if decide (x < m)%Q then x else m) t ts
  end.

(** ** Shared state and observable effects *)

(** The module globals [request_timestamps] and [api_cache], together with
    the wall clock read by [time.time()]. *)
Record state : Type := State {
  clock : Q;
  request_timestamps : list Q;
  api_cache : gmap string (Q * json)
}.

(** The process starts with an empty log and an empty cache. *)
Definition initial_state (t0 : Q) : state :=
  {| clock := t0; request_timestamps := []; api_cache := ∅ |}.

(** Time passing without any change to the globals. *)
Definition elapse (d : Q) (s : state) : state :=
  {| clock := (clock s + d)%Q;
     request_timestamps := request_timestamps s;
     api_cache := api_cache s |}.

(** What a call does to the outside world. *)
Inductive event : Type :=
  | Sleep (seconds : Q)
  | HttpGet (url : string) (params : list (string * value)).

(** ** Rate limiter *)

Definition MAX_REQUESTS_PER_MINUTE : nat := 60.

(** The list comprehension of line 101. *)
Definition recent (current_time : Q) (timestamps : list Q) : list Q :=
  filter (fun t => (current_time - t < 60)%Q) timestamps.

(** [time_to_wait] of lines 106-109. *)
Definition time_to_wait (current_time : Q) (timestamps : list Q) : Q :=
  let oldest_timestamp := list_min timestamps in
  (60 - (current_time - oldest_timestamp) + (1 # 10))%Q.

(** The seconds [apply_rate_limit] asks [asyncio.sleep] for, if any. *)
Definition suspension (current_time : Q) (timestamps : list Q) : option Q :=
  if decide (MAX_REQUESTS_PER_MINUTE ≤ length timestamps)%nat then
    if decide (0 < time_to_wait current_time timestamps)%Q
    then Some (time_to_wait current_time timestamps)
    else None
  else None.

(** [apply_rate_limit] (lines 95-118).  [lag] is the time that passes
    between the first and the second reading of the clock beyond the
    requested sleep. *)
Definition apply_rate_limit (lag : Q) (s : state) : list event * state :=
  let current_time := clock s in
  let timestamps := recent current_time (request_timestamps s) in
  let '(evs, woken) :=
    match suspension current_time timestamps with
    | Some w => ([Sleep w], (current_time + w)%Q)
    | None => ([], current_time)
    end in
  let appended := (woken + lag)%Q in
  (evs, {| clock := appended;
           request_timestamps := timestamps ++ [appended];
           api_cache := api_cache s |}).

(** A run of limiter calls, each preceded by an idle [gap]. *)
Definition acquire_all (calls : list (Q * Q)) (s : state) : state :=
  foldl (fun st c => (apply_rate_limit c.2 (elapse c.1 st)).2) s calls.

(** Number of logged timestamps inside the window that ends now. *)
Definition in_window (s : state) : nat :=
  length (recent (clock s) (request_timestamps s)).

(** ** Response cache *)

Definition CACHE_TTL : Q := 300%Q.

(** The cache check of lines 153-158: the stored data when the key has an
    entry whose age is below [CACHE_TTL], nothing otherwise. *)
Definition cache_lookup (cache : gmap string (Q * json)) (cache_key : string)
    (now : Q) : option json :=
  match cache !! cache_key with
  | Some (timestamp, data) =>
      if decide (now - timestamp < CACHE_TTL)%Q then Some data else None
  | None => None
  end.

(** [expired_keys] of [cleanup_cache] (lines 1244-1248).  The keys come in
    the order of the map's listing; the deletions and the count do not depend
    on it. *)
Definition expired_keys (current_time : Q) (cache : gmap string (Q * json))
    : list string :=
  (filter (fun kv => (CACHE_TTL <= current_time - kv.2.1)%Q)
          (map_to_list cache)).*1.

(** [cleanup_cache] (lines 1241-1255).  The function returns nothing; the
    pair is what its log line reports: entries removed, entries remaining. *)
Definition cleanup_cache (s : state) : (nat * nat) * state :=
  let current_time := clock s in
  let expired := expired_keys current_time (api_cache s) in
  let cache := foldl (fun m key => delete key m) (api_cache s) expired in
  ((length expired, size cache),
   {| clock := clock s;
      request_timestamps := request_timestamps s;
      api_cache := cache |}).

(** ** Upstream replies and exceptions *)

(** The exceptions that can leave the [try] block.  [Cancelled] stands for
    the conditions outside the [Exception] hierarchy (task cancellation,
    interpreter exit), which no handler of the dispatcher catches. *)
Inductive exn : Type :=
  | HTTPStatusError (status_code : Z) (text : string)
  | ConnectError (description : string)
  | TimeoutException (description : string)
  | JSONDecodeError (description : string)
  | InternalFault (description : string)
  | Cancelled (description : string).

(** [str(e)] for the exceptions the generic handler formats. *)
Definition exn_str (e : exn) : string :=
  match e with
  | HTTPStatusError _ text => text
  | ConnectError d | TimeoutException d | JSONDecodeError d
  | InternalFault d | Cancelled d => d
  end.

(** An HTTP response: status, raw body, and what [response.json()] does. *)
Record response : Type := Response {
  status_code : Z;
  text : string;
  json_body : json + exn
}.

(** What [client.get] does: it returns a response or raises. *)
Inductive reply : Type :=
  | Responded (r : response)
  | Failed (e : exn).

(** [response.raise_for_status()] raises unless the status is 2xx. *)
Definition is_success (r : response) : bool :=
  bool_decide (200 ≤ status_code r ∧ status_code r ≤ 299)%Z.

(** A failure without an HTTP status: [client.get] raises a connection
    error or a timeout, or [response.json()] rejects the body of a 2xx
    response. *)
Definition no_status_failure (r : reply) (description : string) : Prop :=
  r = Failed (ConnectError description) ∨
  r = Failed (TimeoutException description) ∨
  ∃ resp, r = Responded resp ∧ is_success resp = true
          ∧ json_body resp = inr (JSONDecodeError description).

(** An unexpected internal fault inside the [try] block, raised by the
    client or while the body is decoded. *)
Definition internal_fault (r : reply) (description : string) : Prop :=
  r = Failed (InternalFault description) ∨
  ∃ resp, r = Responded resp ∧ is_success resp = true
          ∧ json_body resp = inr (InternalFault description).

(** ** Error results *)

(** The five error return sites of [make_opendota_request], named after the
    kinds of the error taxonomy.  The kind is a label of the return site; the
    value handed to the caller is [error_dict]. *)
Inductive error_kind : Type :=
  | RateLimited
  | NotFound
  | UpstreamServerError
  | TransportError
  | Unknown.

Record classified_error : Type := Classified {
  kind : error_kind;
  message : string
}.

(** [{"error": message}] *)
Definition error_dict (c : classified_error) : json :=
  JDict [("error", JStr (message c))].

(** The [except] clauses of lines 177-195.  [None]: no clause matches and
    the exception propagates. *)
Definition classify (e : exn) : option classified_error :=
  match e with
  | HTTPStatusError status body =>
      if decide (status = 429)%Z then
        Some (Classified RateLimited
          "Rate limit exceeded. Consider using an API key for more requests.")
      else if decide (status = 404)%Z then
        Some (Classified NotFound
          "Not found. The requested resource doesn't exist.")
      else if decide (500 ≤ status)%Z then
        Some (Classified UpstreamServerError
          "OpenDota API server error. Please try again later.")
      else
        Some (Classified TransportError
          ("HTTP error " ++ pretty status ++ ": " ++ body))
  | Cancelled _ => None
  | _ => Some (Classified Unknown ("Unexpected error: " ++ exn_str e))
  end.

(** How a call of the dispatcher ends. *)
Inductive outcome : Type :=
  | Payload (data : json)
  | ErrorResult (c : classified_error)
  | Raised (e : exn).

(** The Python value returned to the caller, if the call returns. *)
Definition returned (o : outcome) : option json :=
  match o with
  | Payload data => Some data
  | ErrorResult c => Some (error_dict c)
  | Raised _ => None
  end.

(** ** Dispatcher *)

(** What the environment contributes to one call of the dispatcher: the time
    that passes inside the limiter, before the cache check and during the
    network exchange, and the reply of the upstream API. *)
Record env : Type := Env {
  lag_limiter : Q;
  lag_lookup : Q;
  lag_fetch : Q;
  upstream : reply
}.

Definition OPENDOTA_API_BASE : string := "https://api.opendota.com/api".

(** [api_cache[cache_key] = (time.time(), data)] (line 174). *)
Definition cache_store (cache_key : string) (data : json) (s : state) : state :=
  {| clock := clock s;
     request_timestamps := request_timestamps s;
     api_cache := <[cache_key := (clock s, data)]> (api_cache s) |}.

(** The body of the [try] block (lines 164-176): the data and the updated
    cache, or the exception raised. *)
Definition try_fetch (cache_key : string) (r : reply) (s : state)
    : (json + exn) * state :=
  match r with
  | Failed e => (inr e, s)
  | Responded resp =>
      if is_success resp then
        match json_body resp with
        | inl data => (inl data, cache_store cache_key data s)
        | inr e => (inr e, s)
        end
      else (inr (HTTPStatusError (status_code resp) (text resp)), s)
  end.

Section Dispatcher.

(** The environment variable read once at import time. *)
Variable OPENDOTA_API_KEY : string.

Definition API_PARAMS : list (string * value) :=
  if decide (OPENDOTA_API_KEY = "") then []
  else [("api_key", VStr OPENDOTA_API_KEY)].

(** Lines 142-144: the defaults, updated with the caller's parameters. *)
Definition request_params (params : option (list (string * value)))
    : list (string * value) :=
  match params with
  | Some (kv :: rest) => Dict.update API_PARAMS (kv :: rest)
  | _ => API_PARAMS
  end.

(** Lines 146-150: the key built in the dispatcher itself. *)
Definition cache_key (endpoint : string)
    (params : option (list (string * value))) : string :=
  match request_params params with
  | [] => endpoint
  | kv :: rest => endpoint ++ "?" ++ param_str (kv :: rest)
  end.

(** The state and the instant at which the cache is checked: the limiter
    has already run. *)
Definition at_cache_check (e : env) (s : state) : state :=
  elapse (lag_lookup e) (apply_rate_limit (lag_limiter e) s).2.

(** [make_opendota_request] (lines 134-195), for the calls in which nothing
    is raised outside the [try] block: the sleep of the limiter is not
    cancelled and the HTTP client of line 162 is constructed and closed.
    [make_opendota_request_raising] below adds those paths. *)
Definition make_opendota_request (endpoint : string)
    (params : option (list (string * value))) (e : env) (s : state)
    : outcome * list event * state :=
  let '(waited, s1) := apply_rate_limit (lag_limiter e) s in
  let url := OPENDOTA_API_BASE ++ "/" ++ endpoint in
  let key := cache_key endpoint params in
  let s2 := elapse (lag_lookup e) s1 in
  match cache_lookup (api_cache s2) key (clock s2) with
  | Some data => (Payload data, waited, s2)
  | None =>
      let sent := (waited ++ [HttpGet url (request_params params)])%list in
      let '(r, s3) := try_fetch key (upstream e) (elapse (lag_fetch e) s2) in
      match r with
      | inl data => (Payload data, sent, s3)
      | inr x =>
          match classify x with
          | Some c => (ErrorResult c, sent, s3)
          | None => (Raised x, sent, s3)
          end
      end
  end.

(** The cache check of a call, at the instant the dispatcher performs it. *)
Definition cache_check (endpoint : string)
    (params : option (list (string * value))) (e : env) (s : state)
    : option json :=
  cache_lookup (api_cache (at_cache_check e s))
               (cache_key endpoint params)
               (clock (at_cache_check e s)).

(** The state in which the network exchange of a call ends. *)
Definition at_fetch (e : env) (s : state) : state :=
  elapse (lag_fetch e) (at_cache_check e s).

(** A sequence of dispatcher calls, one after another, each starting
    [idle] seconds after the previous one returned. *)
Fixpoint run
    (calls : list (Q * string * option (list (string * value)) * env))
    (s : state) : list (outcome * list event) * state :=
  match calls with
  | [] => ([], s)
  | (idle, endpoint, params, e) :: rest =>
      let '(o, evs, s1) :=
        make_opendota_request endpoint params e (elapse idle s) in
      let '(os, s2) := run rest s1 in
      ((o, evs) :: os, s2)
  end.

End Dispatcher.

(** ** Exceptions raised outside the [try] block *)

(** What can be raised around the [try] block of [make_opendota_request]:
    a cancellation delivered while the limiter is suspended in
    [asyncio.sleep] (line 115), [elapsed] seconds into the sleep; an
    exception raised when the HTTP client is constructed or entered
    (line 162); an exception raised when the [async with] block is left. *)
Record faults : Type := Faults {
  sleep_cancelled : option (Q * string);
  client_error : option exn;
  close_error : option exn
}.

Definition no_faults : faults := Faults None None None.

(** The exchange inside the [try] block raises [x]: [client.get] raises it,
    or [response.json()] raises it on a 2xx response. *)
Definition exchange_raises (r : reply) (x : exn) : Prop :=
  r = Failed x ∨
  ∃ resp, r = Responded resp ∧ is_success resp = true ∧ json_body resp = inr x.

(** [apply_rate_limit] (lines 95-118) with a possible cancellation of its
    sleep.  The only suspension point is the [await] of line 115, so a call
    that does not sleep cannot be cancelled; a cancelled call has rebound
    the log to the pruned list (line 101) and appends nothing. *)
Definition apply_rate_limit_raising (cancel : option (Q * string)) (lag : Q)
    (s : state) : option exn * list event * state :=
  let current_time := clock s in
  let timestamps := recent current_time (request_timestamps s) in
  match suspension current_time timestamps, cancel with
  | Some w, Some (elapsed, description) =>
      (Some (Cancelled description), [Sleep w],
       {| clock := (current_time + elapsed)%Q;
          request_timestamps := timestamps;
          api_cache := api_cache s |})
  | _, _ =>
      let '(evs, s1) := apply_rate_limit lag s in (None, evs, s1)
  end.

Section DispatcherRaising.

Variable OPENDOTA_API_KEY : string.

(** [make_opendota_request] (lines 134-195) with the exceptions raised
    outside its [try] block: the cancellation of the limiter (line 139), the
    construction of the client (line 162, reached on a cache miss only) and
    the exit of the [async with] block, which replaces the result of the
    [try] statement. *)
Definition make_opendota_request_raising (f : faults) (endpoint : string)
    (params : option (list (string * value))) (e : env) (s : state)
    : outcome * list event * state :=
  match apply_rate_limit_raising (sleep_cancelled f) (lag_limiter e) s with
  | (Some x, waited, s1) => (Raised x, waited, s1)
  | (None, waited, s1) =>
      let url := OPENDOTA_API_BASE ++ "/" ++ endpoint in
      let key := cache_key OPENDOTA_API_KEY endpoint params in
      let s2 := elapse (lag_lookup e) s1 in
      match cache_lookup (api_cache s2) key (clock s2) with
      | Some data => (Payload data, waited, s2)
      | None =>
          match client_error f with
          | Some x => (Raised x, waited, s2)
          | None =>
              let sent :=
                (waited ++ [HttpGet url
                              (request_params OPENDOTA_API_KEY params)])%list in
              let '(r, s3) :=
                try_fetch key (upstream e) (elapse (lag_fetch e) s2) in
              match close_error f with
              | Some x => (Raised x, sent, s3)
              | None =>
                  match r with
                  | inl data => (Payload data, sent, s3)
                  | inr x =>
                      match classify x with
                      | Some c => (ErrorResult c, sent, s3)
                      | None => (Raised x, sent, s3)
                      end
                  end
              end
          end
      end
  end.

(** The sleep of the limiter is cancelled: it sleeps and a cancellation is
    delivered. *)
Definition cancelled_in_sleep (f : faults) (s : state) : Prop :=
  is_Some (suspension (clock s) (recent (clock s) (request_timestamps s)))
  ∧ is_Some (sleep_cancelled f).

End DispatcherRaising.

(** ** Presentation helpers *)

(** The table [ranks] of [format_rank_tier]. *)
Definition ranks : list string :=
  ["Unranked"; "Herald"; "Guardian"; "Crusader"; "Archon"; "Legend";
   "Ancient"; "Divine"; "Immortal"].

(** [format_rank_tier] (lines 198-224).  [//] and [%] by 10 are the floor
    division and its remainder; the index [tier] is inside the table when it
    is read. *)
Definition format_rank_tier (rank_tier : option Z) : string :=
  match rank_tier with
  | None => "Unknown"
  | Some r =>
      if decide (r = 0)%Z then "Unknown"
      else
        let tier := (r / 10)%Z in
        let stars := (r mod 10)%Z in
        if decide (tier < 1 ∨ Z.of_nat (length ranks) ≤ tier)%Z then "Unknown"
        else if decide (tier = 8)%Z then "Immortal"
        else nth (Z.to_nat tier) ranks "" ++ " " ++ pretty stars
  end.

(** The format specification [02d]: decimal digits, zero-filled on the left
    to two characters (a sign counts as one of them). *)
Definition format_02d (n : Z) : string :=
  let digits := pretty n in
  if (String.length digits <? 2)%nat then "0" ++ digits else digits.

(** [format_duration] (lines 227-230); [divmod] by 60 rounds towards minus
    infinity. *)
Definition format_duration (seconds : Z) : string :=
  let minutes := (seconds / 60)%Z in
  let seconds := (seconds mod 60)%Z in
  pretty minutes ++ ":" ++ format_02d seconds.

(** ** Reading parsed JSON *)

(** The exceptions raised by operations on values of the wrong type. *)
Inductive py_error : Type :=
  | AttributeError (type_name attribute : string)
  | TypeError (description : string).

(** [type(x).__name__] *)
Definition type_name (x : json) : string :=
  match x with
  | JNull => "NoneType"
  | JBool _ => "bool"
  | JNum _ => "int"
  | JStr _ => "str"
  | JList _ => "list"
  | JDict _ => "dict"
  end.

(** [bool(x)] *)
Definition truthy (x : json) : bool :=
  match x with
  | JNull => false
  | JBool b => b
  | JNum n => negb (n =? 0)%Z
  | JStr s => negb (String.eqb s "")
  | JList l => match l with [] => false | _ => true end
  | JDict d => match d with [] => false | _ => true end
  end.

(** Lookup of a key among the items of a dict. *)
Fixpoint dict_get (items : list (string * json)) (key : string) : option json :=
  match items with
  | [] => None
  | (k, v) :: rest => if decide (k = key) then Some v else dict_get rest key
  end.

(** [x.get(key, default)]; only a dict has the method. *)
Definition py_get (x : json) (key : string) (default : json) : py_error + json :=
  match x with
  | JDict items => inr (from_option (fun v => v) default (dict_get items key))
  | _ => inl (AttributeError (type_name x) "get")
  end.

(** The dataclass [Player] (lines 52-66); the fields hold whatever the
    response holds, [JNull] standing for [None]. *)
Module Player.
Record t : Type := Make {
  account_id : json;
  personaname : json;
  name : json;
  steam_id : json;
  avatar : json;
  profile_url : json;
  rank_tier : json;
  mmr_estimate : json;
  country_code : json;
  is_pro : bool;
  team_name : json;
  team_id : json
}.
End Player.

(** [parse_player] (lines 245-267).  The arguments of the constructor are
    evaluated in the order they are written, so a [profile] that is no dict
    fails before [mmr_estimate] is looked at. *)
Definition parse_player (player_data : list (string * json))
    : py_error + Player.t :=
  let data := JDict player_data in
  let get key := from_option (fun v => v) JNull (dict_get player_data key) in
  let profile := from_option (fun v => v) (JDict []) (dict_get player_data "profile") in
  let account_id :=
    match get "account_id" with
    | JNull => JNum 0
    | v => v
    end in
  match py_get profile "personaname" JNull with
  | inl err => inl err
  | inr personaname =>
  match py_get profile "name" JNull with
  | inl err => inl err
  | inr name =>
  match py_get profile "steamid" JNull with
  | inl err => inl err
  | inr steam_id =>
  match py_get profile "avatarfull" JNull with
  | inl err => inl err
  | inr avatar =>
  match py_get profile "profileurl" JNull with
  | inl err => inl err
  | inr profile_url =>
  match py_get (from_option (fun v => v) (JDict [])
                            (dict_get player_data "mmr_estimate"))
               "estimate" JNull with
  | inl err => inl err
  | inr mmr_estimate =>
  match py_get profile "loccountrycode" JNull with
  | inl err => inl err
  | inr country_code =>
      inr {| Player.account_id := account_id;
             Player.personaname := personaname;
             Player.name := name;
             Player.steam_id := steam_id;
             Player.avatar := avatar;
             Player.profile_url := profile_url;
             Player.rank_tier := get "rank_tier";
             Player.mmr_estimate := mmr_estimate;
             Player.country_code := country_code;
             Player.is_pro :=
               truthy (from_option (fun v => v) (JBool false)
                                   (dict_get player_data "is_pro"));
             Player.team_name := get "team_name";
             Player.team_id := get "team_id" |}
  end end end end end end end.

(** ** Fragments of the tools *)

(** The slice [l[:stop]]: a negative [stop] counts from the end. *)
Definition slice_to {A : Type} (l : list A) (stop : Z) : list A :=
  if (stop <? 0)%Z then take (Z.to_nat (Z.of_nat (length l) + stop)) l
  else take (Z.to_nat stop) l.

(** [matches_to_process] of [get_player_recent_matches] (lines 445-446 and
    462-464), for the non-empty list that reaches line 464; the same cap and
    slice select the entries of [get_pro_matches] and [get_public_matches]. *)
Definition matches_to_process (limit : Z) (recent_matches : list json)
    : list json :=
  let limit := if (20 <? limit)%Z then 20%Z else limit in
  slice_to recent_matches limit.

(** [x < n] for an integer [n]; [bool] is a subtype of [int]. *)
Definition lt_int (x : json) (n : Z) : py_error + bool :=
  match x with
  | JNum m => inr (m <? n)%Z
  | JBool b => inr ((if b then 1 else 0) <? n)%Z
  | _ => inl (TypeError
           ("'<' not supported between instances of '" ++ type_name x
            ++ "' and 'int'"))
  end.

(** [x == b] for a boolean [b]. *)
Definition eq_bool (x : json) (b : bool) : bool :=
  match x with
  | JBool c => Bool.eqb c b
  | JNum m => (m =? (if b then 1 else 0))%Z
  | _ => false
  end.

(** The result shown for one match (lines 470-474, and 377-381 in
    [format_player_data]). *)
Definition win (match_ : json) : py_error + string :=
  match py_get match_ "radiant_win" JNull with
  | inl err => inl err
  | inr radiant_win =>
      match py_get match_ "player_slot" (JNum 0) with
      | inl err => inl err
      | inr player_slot =>
          match lt_int player_slot 128 with
          | inl err => inl err
          | inr radiant =>
              inr (if eq_bool radiant_win radiant then "Won" else "Lost")
          end
      end
  end.

(** ** Schedules of calls *)

(** Time does not run backwards around a call: the idle time before it and
    the lags inside it are not negative. *)
Definition forward_call
    (c : Q * string * option (list (string * value)) * env) : Prop :=
  (0 <= c.1.1.1)%Q ∧ (0 <= lag_limiter c.2)%Q ∧
  (0 <= lag_lookup c.2)%Q ∧ (0 <= lag_fetch c.2)%Q.

(** A call that starts at least one second after the previous one returned. *)
Definition spaced_call
    (c : Q * string * option (list (string * value)) * env) : Prop :=
  (1 <= c.1.1.1)%Q ∧ (0 <= lag_limiter c.2)%Q ∧
  (0 <= lag_lookup c.2)%Q ∧ (0 <= lag_fetch c.2)%Q.

(** No logged timestamp lies in the future. *)
Definition log_in_past (s : state) : Prop :=
  Forall (fun t => (t <= clock s)%Q) (request_timestamps s).

(** A state with its cache replaced. *)
Definition with_cache (cache : gmap string (Q * json)) (s : state) : state :=
  {| clock := clock s;
     request_timestamps := request_timestamps s;
     api_cache := cache |}.

(** Two instants at least one second apart, in this order. *)
Definition second_apart (a b : Q) : Prop := (a + 1 <= b)%Q.

(** ** Sample inputs *)

Module Sample.

Definition wins : json := JDict [("wins", JNum 10)].
Definition other : json := JDict [("wins", JNum 99)].

Definition ok (data : json) : env :=
  Env 0 0 0 (Responded (Response 200 "{}" (inl data))).
Definition status (code : Z) (body : string) : env :=
  Env 0 0 0 (Responded (Response code body (inr (JSONDecodeError "Expecting value")))).
Definition failing (x : exn) : env := Env 0 0 0 (Failed x).

(** A cache holding one entry stored at time 0, read at time 1. *)
Definition warm : state :=
  {| clock := 1; request_timestamps := [];
     api_cache := {[ "players/1" := (0%Q, wins) ]} |}.

(** One fetch of ["players/1"] followed by 64 more calls for it, all at
    the same instant. *)
Definition burst : list (Q * string * option (list (string * value)) * env) :=
  (0%Q, "players/1", None, ok wins)
    :: replicate 64 (0%Q, "players/1", None, failing (ConnectError "unreachable")).

Definition paramsA : list (string * value) :=
  [("limit", VInt 5); ("hero_id", VInt 1); ("win", VBool true)].
Definition paramsB : list (string * value) :=
  [("win", VBool true); ("limit", VInt 5); ("hero_id", VInt 1)].

(** Two different mappings for the endpoint ["search"]. *)
Definition one_param : list (string * value) := [("q", VStr "a&r=b")].
Definition two_params : list (string * value) :=
  [("q", VStr "a"); ("r", VStr "b")].

End Sample.

(** * Properties *)

(** Distinctness of the keys of a literal dict. *)
Ltac solve_wf :=
  unfold Dict.wf; cbn;
  repeat (apply NoDup_cons_2;
          [rewrite ?elem_of_cons, ?elem_of_nil; intuition discriminate|]);
  apply NoDup_nil_2.

(** ** Cache freshness *)

Lemma cache_lookup_Some cache key now data :
  cache_lookup cache key now = Some data ↔
  ∃ storedAt, cache !! key = Some (storedAt, data) ∧ (now - storedAt < CACHE_TTL)%Q.
Proof.
  unfold cache_lookup. split.
  - destruct (cache !! key) as [[ts d]|] eqn:E; [|discriminate].
    case_decide as Hage; [|discriminate].
    intros [= ->]. exists ts. split; [reflexivity|exact Hage].
  - intros (ts & -> & Hage). rewrite decide_True by exact Hage. reflexivity.
Qed.

Lemma cache_lookup_stale cache key now storedAt data :
  cache !! key = Some (storedAt, data) →
  (CACHE_TTL <= now - storedAt)%Q →
  cache_lookup cache key now = None.
Proof.
  intros E Hage. unfold cache_lookup. rewrite E.
  rewrite decide_False; [reflexivity|]. apply Qle_not_lt, Hage.
Qed.

(** C5.  The cache check returns the stored data exactly when the key has an
    entry younger than [CACHE_TTL]; an entry of age [CACHE_TTL] or more reads
    as absent although it is still in the map.  In particular an entry stored
    at [t0] is served at [t0 + CACHE_TTL - ε] and not at [t0 + CACHE_TTL + ε]. *)
Theorem cache_lookup_fresh (s : state) (key : string) (now ε : Q) (data : json)
    (Hε : (0 < ε)%Q) :
  (∀ d, cache_lookup (api_cache s) key now = Some d ↔
        ∃ storedAt, api_cache s !! key = Some (storedAt, d)
                    ∧ (now - storedAt < CACHE_TTL)%Q) ∧
  (∀ storedAt d, api_cache s !! key = Some (storedAt, d) →
        (CACHE_TTL <= now - storedAt)%Q →
        cache_lookup (api_cache s) key now = None) ∧
  (let put := cache_store key data s in
   cache_lookup (api_cache put) key (clock s + CACHE_TTL - ε) = Some data ∧
   cache_lookup (api_cache put) key (clock s + CACHE_TTL + ε) = None ∧
   api_cache put !! key = Some (clock s, data)).
Proof.
  split; [intros d; apply cache_lookup_Some|].
  split; [intros ts d; apply cache_lookup_stale|].
  cbn. assert (Hput : <[key:=(clock s, data)]> (api_cache s) !! key
                     = Some (clock s, data)) by apply lookup_insert_eq.
  split; [|split; [|exact Hput]].
  - apply cache_lookup_Some. exists (clock s). split; [exact Hput|].
    unfold CACHE_TTL. lra.
  - eapply cache_lookup_stale; [exact Hput|]. unfold CACHE_TTL. lra.
Qed.

(** ** The dispatcher, branch by branch *)

Section DispatcherFacts.

Variable api_key : string.

Implicit Types (endpoint : string) (params : option (list (string * value))).
Implicit Types (e : env) (s : state).

Lemma dispatch_hit endpoint params e s data :
  cache_check api_key endpoint params e s = Some data →
  make_opendota_request api_key endpoint params e s
  = (Payload data, (apply_rate_limit (lag_limiter e) s).1, at_cache_check e s).
Proof.
  unfold cache_check, at_cache_check, make_opendota_request.
  destruct (apply_rate_limit (lag_limiter e) s) as [waited s1]. cbn.
  intros ->. reflexivity.
Qed.

Lemma dispatch_miss endpoint params e s :
  cache_check api_key endpoint params e s = None →
  make_opendota_request api_key endpoint params e s
  = let r := try_fetch (cache_key api_key endpoint params) (upstream e)
                       (at_fetch e s) in
    (match r.1 with
     | inl data => Payload data
     | inr x => match classify x with
                | Some c => ErrorResult c
                | None => Raised x
                end
     end,
     ((apply_rate_limit (lag_limiter e) s).1
       ++ [HttpGet (OPENDOTA_API_BASE ++ "/" ++ endpoint)
                   (request_params api_key params)])%list,
     r.2).
Proof.
  unfold cache_check, at_fetch, at_cache_check, make_opendota_request.
  destruct (apply_rate_limit (lag_limiter e) s) as [waited s1]. cbn.
  intros ->.
  destruct (try_fetch _ _ _) as [[data|x] s3]; cbn; [reflexivity|].
  destruct (classify x); reflexivity.
Qed.

(** The cache of a state is not touched by the limiter or by time. *)
Lemma api_cache_at_cache_check e s :
  api_cache (at_cache_check e s) = api_cache s.
Proof.
  unfold at_cache_check, apply_rate_limit.
  destruct (suspension _ _); reflexivity.
Qed.

Lemma api_cache_at_fetch e s : api_cache (at_fetch e s) = api_cache s.
Proof. apply api_cache_at_cache_check. Qed.

(** C2.  On a cache miss answered with a non-2xx status the dispatcher
    returns an error result: 429 gives the rate-limit message advising an
    API key, 404 the not-found message, any status from 500 up the
    server-error message advising to retry later, and every other status
    the transport message carrying the status code and the body text. *)
Theorem http_failure_classified endpoint params e s resp :
  cache_check api_key endpoint params e s = None →
  upstream e = Responded resp →
  is_success resp = false →
  ∃ c, (make_opendota_request api_key endpoint params e s).1.1 = ErrorResult c ∧
    (status_code resp = 429%Z →
       c = Classified RateLimited
         "Rate limit exceeded. Consider using an API key for more requests.") ∧
    (status_code resp = 404%Z →
       c = Classified NotFound
         "Not found. The requested resource doesn't exist.") ∧
    ((500 ≤ status_code resp)%Z →
       c = Classified UpstreamServerError
         "OpenDota API server error. Please try again later.") ∧
    (status_code resp ≠ 429%Z → status_code resp ≠ 404%Z →
     (status_code resp < 500)%Z →
       c = Classified TransportError
         ("HTTP error " ++ pretty (status_code resp) ++ ": " ++ text resp)).
Proof.
  intros Hmiss Hup Hfail. rewrite (dispatch_miss _ _ _ _ Hmiss).
  unfold try_fetch. rewrite Hup, Hfail. cbn.
  destruct (decide (status_code resp = 429%Z)) as [H429|H429].
  { eexists. split; [reflexivity|]. repeat split; intros; (reflexivity || lia). }
  destruct (decide (status_code resp = 404%Z)) as [H404|H404].
  { eexists. split; [reflexivity|]. repeat split; intros; (reflexivity || lia). }
  destruct (decide (500 ≤ status_code resp)%Z) as [H500|H500].
  { eexists. split; [reflexivity|]. repeat split; intros; (reflexivity || lia). }
  eexists. split; [reflexivity|]. repeat split; intros; (reflexivity || lia).
Qed.

Lemma try_fetch_raises key r s x :
  r = Failed x ∨
  (∃ resp, r = Responded resp ∧ is_success resp = true ∧ json_body resp = inr x) →
  try_fetch key r s = (inr x, s).
Proof.
  intros [->|(resp & -> & Hok & Hbody)]; cbn; [reflexivity|].
  rewrite Hok, Hbody. reflexivity.
Qed.

(** C3 (amended).  A failure without an HTTP status ends in the catch-all
    handler: the call returns an error result of kind [Unknown] whose
    message is ["Unexpected error: "] followed by the description of the
    failure itself. *)
Theorem no_status_failure_classified endpoint params e s description :
  cache_check api_key endpoint params e s = None →
  no_status_failure (upstream e) description →
  make_opendota_request api_key endpoint params e s
  = (ErrorResult (Classified Unknown ("Unexpected error: " ++ description)),
     ((apply_rate_limit (lag_limiter e) s).1
       ++ [HttpGet (OPENDOTA_API_BASE ++ "/" ++ endpoint)
                   (request_params api_key params)])%list,
     at_fetch e s).
Proof.
  intros Hmiss Hfail. rewrite (dispatch_miss _ _ _ _ Hmiss).
  destruct Hfail as [Hr|[Hr|Hr]].
  - rewrite (try_fetch_raises _ _ _ (ConnectError description)) by (left; exact Hr).
    reflexivity.
  - rewrite (try_fetch_raises _ _ _ (TimeoutException description)) by (left; exact Hr).
    reflexivity.
  - rewrite (try_fetch_raises _ _ _ (JSONDecodeError description)) by (right; exact Hr).
    reflexivity.
Qed.

(** The calls in which the sleep of the limiter is not cancelled behave as
    [apply_rate_limit] says. *)
Lemma apply_rate_limit_raising_passes f lag s :
  ¬ cancelled_in_sleep f s →
  apply_rate_limit_raising (sleep_cancelled f) lag s
  = (None, (apply_rate_limit lag s).1, (apply_rate_limit lag s).2).
Proof.
  intros Hnot. unfold apply_rate_limit_raising, cancelled_in_sleep in *.
  destruct (suspension _ _) as [w|] eqn:Hw.
  - destruct (sleep_cancelled f) as [[elapsed d]|].
    + destruct Hnot. split; eauto.
    + destruct (apply_rate_limit lag s). reflexivity.
  - destruct (apply_rate_limit lag s). reflexivity.
Qed.

Lemma apply_rate_limit_raising_cancelled f lag s :
  cancelled_in_sleep f s →
  ∃ w elapsed d,
    suspension (clock s) (recent (clock s) (request_timestamps s)) = Some w ∧
    sleep_cancelled f = Some (elapsed, d) ∧
    apply_rate_limit_raising (sleep_cancelled f) lag s
    = (Some (Cancelled d), [Sleep w],
       {| clock := (clock s + elapsed)%Q;
          request_timestamps := recent (clock s) (request_timestamps s);
          api_cache := api_cache s |}).
Proof.
  intros [[w Hw] [[elapsed d] Hc]]. exists w, elapsed, d.
  unfold apply_rate_limit_raising. rewrite Hw, Hc. auto.
Qed.

Lemma dispatch_raising_cancelled f endpoint params e s :
  cancelled_in_sleep f s →
  ∃ w elapsed d,
    suspension (clock s) (recent (clock s) (request_timestamps s)) = Some w ∧
    sleep_cancelled f = Some (elapsed, d) ∧
    make_opendota_request_raising api_key f endpoint params e s
    = (Raised (Cancelled d), [Sleep w],
       {| clock := (clock s + elapsed)%Q;
          request_timestamps := recent (clock s) (request_timestamps s);
          api_cache := api_cache s |}).
Proof.
  intros Hc.
  destruct (apply_rate_limit_raising_cancelled f (lag_limiter e) s Hc)
    as (w & elapsed & d & Hw & Hf & Hlim).
  exists w, elapsed, d. unfold make_opendota_request_raising.
  rewrite Hlim. auto.
Qed.

Lemma dispatch_raising_hit f endpoint params e s data :
  ¬ cancelled_in_sleep f s →
  cache_check api_key endpoint params e s = Some data →
  make_opendota_request_raising api_key f endpoint params e s
  = (Payload data, (apply_rate_limit (lag_limiter e) s).1, at_cache_check e s).
Proof.
  intros Hnot. unfold cache_check, at_cache_check, make_opendota_request_raising.
  rewrite (apply_rate_limit_raising_passes _ _ _ Hnot). cbv zeta.
  intros ->. reflexivity.
Qed.

Lemma dispatch_raising_client f endpoint params e s x :
  ¬ cancelled_in_sleep f s →
  cache_check api_key endpoint params e s = None →
  client_error f = Some x →
  make_opendota_request_raising api_key f endpoint params e s
  = (Raised x, (apply_rate_limit (lag_limiter e) s).1, at_cache_check e s).
Proof.
  intros Hnot. unfold cache_check, at_cache_check, make_opendota_request_raising.
  rewrite (apply_rate_limit_raising_passes _ _ _ Hnot). cbv zeta.
  intros -> ->. reflexivity.
Qed.

Lemma dispatch_raising_close f endpoint params e s x :
  ¬ cancelled_in_sleep f s →
  cache_check api_key endpoint params e s = None →
  client_error f = None →
  close_error f = Some x →
  make_opendota_request_raising api_key f endpoint params e s
  = (Raised x,
     ((apply_rate_limit (lag_limiter e) s).1
       ++ [HttpGet (OPENDOTA_API_BASE ++ "/" ++ endpoint)
                   (request_params api_key params)])%list,
     (try_fetch (cache_key api_key endpoint params) (upstream e)
                (at_fetch e s)).2).
Proof.
  intros Hnot. unfold cache_check, at_fetch, at_cache_check,
    make_opendota_request_raising.
  rewrite (apply_rate_limit_raising_passes _ _ _ Hnot). cbv zeta.
  intros -> -> ->. destruct (try_fetch _ _ _). reflexivity.
Qed.

(** Without an exception outside the [try] block the call is the one
    [make_opendota_request] describes. *)
Lemma dispatch_raising_try f endpoint params e s :
  ¬ cancelled_in_sleep f s →
  (is_Some (cache_check api_key endpoint params e s)
   ∨ (client_error f = None ∧ close_error f = None)) →
  make_opendota_request_raising api_key f endpoint params e s
  = make_opendota_request api_key endpoint params e s.
Proof.
  intros Hnot Hpath.
  destruct (cache_check api_key endpoint params e s) as [data|] eqn:Hcheck.
  - rewrite (dispatch_raising_hit _ _ _ _ _ _ Hnot Hcheck).
    rewrite (dispatch_hit _ _ _ _ _ Hcheck). reflexivity.
  - destruct Hpath as [[data Hdata]|[Hclient Hclose]]; [discriminate|].
    rewrite (dispatch_miss _ _ _ _ Hcheck). cbv zeta.
    revert Hcheck. unfold cache_check, at_fetch, at_cache_check,
      make_opendota_request_raising.
    rewrite (apply_rate_limit_raising_passes _ _ _ Hnot). cbv zeta.
    intros ->. rewrite Hclient.
    destruct (try_fetch _ _ _) as [[data|x] s3]; rewrite Hclose; cbn;
      [reflexivity|].
    destruct (classify x); reflexivity.
Qed.

(** C9 (amended).  Not every internal fault of a fetch propagates.  One
    raised outside the [try] block, while the HTTP client is constructed or
    closed (line 162), leaves the dispatcher as raised, as does any other
    exception raised there; one raised inside the [try] block, by the call
    of the client or while the body is decoded, is absorbed by the
    catch-all handler and handed back as the error result
    ["Unexpected error: ..."], the cache untouched. *)
Theorem internal_fault_absorbed f endpoint params e s description :
  ¬ cancelled_in_sleep f s →
  cache_check api_key endpoint params e s = None →
  let r := make_opendota_request_raising api_key f endpoint params e s in
  (∀ x, client_error f = Some x →
     r.1.1 = Raised x ∧ (∀ url ps, HttpGet url ps ∉ r.1.2)
     ∧ api_cache r.2 = api_cache s) ∧
  (∀ x, client_error f = None → close_error f = Some x → r.1.1 = Raised x) ∧
  (client_error f = None → close_error f = None →
   internal_fault (upstream e) description →
     r.1.1 = ErrorResult (Classified Unknown ("Unexpected error: " ++ description))
     ∧ returned r.1.1
       = Some (JDict [("error", JStr ("Unexpected error: " ++ description))])
     ∧ api_cache r.2 = api_cache s).
Proof.
  intros Hnot Hmiss. cbv zeta. split; [|split].
  - intros x Hclient.
    rewrite (dispatch_raising_client _ _ _ _ _ _ Hnot Hmiss Hclient).
    cbn [fst snd]. split; [reflexivity|]. split.
    + intros url ps. unfold apply_rate_limit.
      destruct (suspension _ _); cbn; intros Hin.
      * apply list_elem_of_singleton in Hin. discriminate.
      * apply elem_of_nil in Hin. exact Hin.
    + apply api_cache_at_cache_check.
  - intros x Hclient Hclose.
    rewrite (dispatch_raising_close _ _ _ _ _ _ Hnot Hmiss Hclient Hclose).
    reflexivity.
  - intros Hclient Hclose Hfault.
    rewrite (dispatch_raising_try _ _ _ _ _ Hnot) by (right; auto).
    rewrite (dispatch_miss _ _ _ _ Hmiss).
    rewrite (try_fetch_raises _ _ _ (InternalFault description)).
    + cbn. repeat split. apply api_cache_at_fetch.
    + destruct Hfault as [Hr|Hr]; [left|right]; exact Hr.
Qed.

(** One call leaves the cache as it was or stores the decoded body of a
    2xx response under the key of the call. *)
Lemma dispatch_cache_effect endpoint params e s :
  let r := make_opendota_request api_key endpoint params e s in
  (api_cache r.2 = api_cache s ∧ (∀ data, r.1.1 = Payload data →
      cache_check api_key endpoint params e s = Some data)) ∨
  ∃ resp data,
    upstream e = Responded resp ∧ is_success resp = true ∧
    json_body resp = inl data ∧ r.1.1 = Payload data ∧
    api_cache r.2
    = <[cache_key api_key endpoint params := (clock r.2, data)]> (api_cache s).
Proof.
  destruct (cache_check api_key endpoint params e s) as [hit|] eqn:Hcheck.
  { left. rewrite (dispatch_hit _ _ _ _ _ Hcheck). cbn.
    split; [apply api_cache_at_cache_check|]. intros data [= ->]. reflexivity. }
  rewrite (dispatch_miss _ _ _ _ Hcheck). unfold try_fetch.
  pose proof (api_cache_at_fetch e s) as Hframe.
  destruct (upstream e) as [resp|x] eqn:Hup.
  - destruct (is_success resp) eqn:Hok.
    + destruct (json_body resp) as [data|x] eqn:Hbody.
      * right. exists resp, data. cbn [fst snd cache_store api_cache clock].
        rewrite Hframe. auto.
      * left. cbn [fst snd]. split; [exact Hframe|].
        intros data. destruct (classify x); discriminate.
    + left. cbn [fst snd]. split; [exact Hframe|].
      intros data. destruct (classify _); discriminate.
  - left. cbn [fst snd]. split; [exact Hframe|].
    intros data. destruct (classify x); discriminate.
Qed.

(** Along a run, an entry of the cache was there at the start or is the
    decoded body of a 2xx reply to one of the calls, under that call's key. *)
Lemma run_cache_entries calls s key storedAt data :
  api_cache (run api_key calls s).2 !! key = Some (storedAt, data) →
  api_cache s !! key = Some (storedAt, data) ∨
  ∃ idle endpoint params e resp,
    (idle, endpoint, params, e) ∈ calls ∧
    upstream e = Responded resp ∧ is_success resp = true ∧
    json_body resp = inl data ∧ key = cache_key api_key endpoint params.
Proof.
  revert s. induction calls as [|[[[idle endpoint] params] e] rest IH]; intros s.
  { cbn. auto. }
  cbn [run].
  pose proof (dispatch_cache_effect endpoint params e (elapse idle s)) as Hstep.
  destruct (make_opendota_request api_key endpoint params e (elapse idle s))
    as [[o evs] s1].
  specialize (IH s1). destruct (run api_key rest s1) as [os s2].
  cbn in *. intros Hentry. destruct (IH Hentry) as [Hold|Hnew].
  - destruct Hstep as [[Hsame _]|(resp & d & Hup & Hok & Hbody & _ & Hins)].
    + left. rewrite <- Hsame. exact Hold.
    + rewrite Hins in Hold.
      destruct (decide (cache_key api_key endpoint params = key)) as [<-|Hne].
      * rewrite lookup_insert_eq in Hold. injection Hold as _ <-.
        right. exists idle, endpoint, params, e, resp.
        split; [apply list_elem_of_here|auto].
      * rewrite lookup_insert_ne in Hold by exact Hne. left. exact Hold.
  - destruct Hnew as (i & ep & ps & e' & resp & Hin & Hrest).
    right. exists i, ep, ps, e', resp.
    split; [apply list_elem_of_further, Hin|exact Hrest].
Qed.

(** C4.  A call that ends in an error result (or raises) leaves the cache
    map as it found it; the only change a call can make is to store the
    decoded payload of a successful reply with the time of the store, so
    every entry of a cache grown from empty is such a payload. *)
Theorem failures_never_cached :
  (∀ endpoint params e s,
     let r := make_opendota_request api_key endpoint params e s in
     (∀ c, r.1.1 = ErrorResult c → api_cache r.2 = api_cache s) ∧
     (∀ x, r.1.1 = Raised x → api_cache r.2 = api_cache s) ∧
     (api_cache r.2 = api_cache s ∨
      ∃ resp data,
        upstream e = Responded resp ∧ is_success resp = true ∧
        json_body resp = inl data ∧ r.1.1 = Payload data ∧
        api_cache r.2
        = <[cache_key api_key endpoint params := (clock r.2, data)]>
            (api_cache s))) ∧
  (∀ t0 calls key storedAt data,
     api_cache (run api_key calls (initial_state t0)).2 !! key
     = Some (storedAt, data) →
     ∃ idle endpoint params e resp,
       (idle, endpoint, params, e) ∈ calls ∧
       upstream e = Responded resp ∧ is_success resp = true ∧
       json_body resp = inl data ∧ key = cache_key api_key endpoint params).
Proof.
  split.
  - intros endpoint params e s. cbv zeta.
    pose proof (dispatch_cache_effect endpoint params e s) as Hstep.
    cbv zeta in Hstep.
    destruct Hstep as [[Hsame _]|(resp & data & Hup & Hok & Hbody & Hres & Hins)].
    + auto.
    + repeat split.
      * intros c Hc. rewrite Hres in Hc. discriminate.
      * intros x Hx. rewrite Hres in Hx. discriminate.
      * right. exists resp, data. auto.
  - intros t0 calls key storedAt data Hentry.
    destruct (run_cache_entries _ _ _ _ _ Hentry) as [Hinit|Hfetched];
      [|exact Hfetched].
    cbn in Hinit. rewrite lookup_empty in Hinit. discriminate.
Qed.

(** C1 (amended).  When the key of a call has a fresh entry at the cache
    check, the call returns the cached payload, performs no HTTP request
    and leaves the cache map alone; the limiter has run first all the same:
    the log is pruned and the time of the call is appended to it, after the
    suspension the limiter asked for, if any. *)
Theorem cache_hit_effects endpoint params e s data :
  cache_check api_key endpoint params e s = Some data →
  let r := make_opendota_request api_key endpoint params e s in
  r.1.1 = Payload data ∧
  (∀ url ps, HttpGet url ps ∉ r.1.2) ∧
  api_cache r.2 = api_cache s ∧
  r.1.2 = match suspension (clock s) (recent (clock s) (request_timestamps s)) with
          | Some w => [Sleep w]
          | None => []
          end ∧
  request_timestamps r.2
  = (recent (clock s) (request_timestamps s)
     ++ [clock (apply_rate_limit (lag_limiter e) s).2])%list.
Proof.
  intros Hhit r. subst r. rewrite (dispatch_hit _ _ _ _ _ Hhit). cbn.
  split; [reflexivity|].
  split.
  { intros url ps. unfold apply_rate_limit.
    destruct (suspension _ _); cbn; intros Hin.
    - apply list_elem_of_singleton in Hin. discriminate.
    - apply not_elem_of_nil in Hin. exact Hin. }
  split; [apply api_cache_at_cache_check|].
  unfold at_cache_check, apply_rate_limit.
  destruct (suspension _ _); cbn; split; reflexivity.
Qed.

End DispatcherFacts.

(** ** Cache sweep *)

Lemma lookup_foldl_delete (m : gmap string (Q * json)) (keys : list string) key :
  foldl (fun m k => delete k m) m keys !! key
  = if decide (key ∈ keys) then None else m !! key.
Proof.
  revert m. induction keys as [|k keys IH]; intros m; cbn.
  { rewrite decide_False by apply not_elem_of_nil. reflexivity. }
  rewrite IH. destruct (decide (key ∈ keys)) as [Hin|Hnin].
  - rewrite decide_True by (right; exact Hin). reflexivity.
  - destruct (decide (key = k)) as [->|Hne].
    + rewrite decide_True by left. apply lookup_delete_eq.
    + rewrite decide_False.
      * apply lookup_delete_ne. congruence.
      * intros Hc. apply elem_of_cons in Hc. tauto.
Qed.

Lemma size_foldl_delete (m : gmap string (Q * json)) (keys : list string) :
  NoDup keys → (∀ k, k ∈ keys → is_Some (m !! k)) →
  length keys + size (foldl (fun m k => delete k m) m keys) = size m.
Proof.
  revert m. induction keys as [|k keys IH]; intros m Hnd Hdom; cbn; [reflexivity|].
  apply NoDup_cons in Hnd as [Hk Hnd].
  assert (Hsome : is_Some (m !! k)) by (apply Hdom; left).
  pose proof (map_size_delete_Some k m Hsome) as Hsz.
  assert (Hpos : size m ≠ 0).
  { destruct Hsome as [x Hx]. intros Hz. apply map_size_empty_inv in Hz.
    rewrite Hz, lookup_empty in Hx. discriminate. }
  assert (Hrest : length keys
            + size (foldl (fun m k => delete k m) (delete k m) keys)
            = size (delete k m)); [|lia].
  apply IH; [exact Hnd|].
  intros k' Hk'. rewrite lookup_delete_ne by (intros ->; contradiction).
  apply Hdom. right. exact Hk'.
Qed.

Lemma elem_of_expired_keys now (cache : gmap string (Q * json)) key :
  key ∈ expired_keys now cache ↔
  ∃ storedAt data, cache !! key = Some (storedAt, data)
                   ∧ (CACHE_TTL <= now - storedAt)%Q.
Proof.
  unfold expired_keys. rewrite list_elem_of_fmap. split.
  - intros ([k [ts d]] & -> & Hin). apply list_elem_of_filter in Hin as [Hexp Hin].
    apply elem_of_map_to_list in Hin. exists ts, d. auto.
  - intros (ts & d & Hk & Hexp). exists (key, (ts, d)). split; [reflexivity|].
    apply list_elem_of_filter. split; [exact Hexp|].
    apply elem_of_map_to_list, Hk.
Qed.

Lemma NoDup_expired_keys now (cache : gmap string (Q * json)) :
  NoDup (expired_keys now cache).
Proof.
  unfold expired_keys.
  apply (sublist_NoDup _ _ (NoDup_fst_map_to_list cache)).
  apply fmap_sublist, sublist_filter.
Qed.

(** C6.  [cleanup_cache] deletes exactly the entries whose age is
    [CACHE_TTL] or more: what remains are the entries younger than
    [CACHE_TTL], unchanged and still served by the cache check, and the
    reported numbers are the count of entries removed and the count left. *)
Theorem cleanup_cache_exact (s : state) :
  let r := cleanup_cache s in
  (∀ key storedAt data,
     api_cache r.2 !! key = Some (storedAt, data) ↔
     api_cache s !! key = Some (storedAt, data)
     ∧ (clock s - storedAt < CACHE_TTL)%Q) ∧
  (∀ key storedAt data,
     api_cache s !! key = Some (storedAt, data) →
     (CACHE_TTL <= clock s - storedAt)%Q →
     api_cache r.2 !! key = None) ∧
  (∀ key, cache_lookup (api_cache r.2) key (clock s)
          = cache_lookup (api_cache s) key (clock s)) ∧
  r.1.1 = length (expired_keys (clock s) (api_cache s)) ∧
  r.1.2 = size (api_cache r.2) ∧
  r.1.1 + size (api_cache r.2) = size (api_cache s).
Proof.
  cbn.
  assert (Hkeep : ∀ key storedAt data,
    foldl (fun m k => delete k m) (api_cache s)
          (expired_keys (clock s) (api_cache s)) !! key = Some (storedAt, data) ↔
    api_cache s !! key = Some (storedAt, data)
    ∧ (clock s - storedAt < CACHE_TTL)%Q).
  { intros key ts d. rewrite lookup_foldl_delete.
    destruct (decide (key ∈ _)) as [Hin|Hnin].
    - apply elem_of_expired_keys in Hin as (ts' & d' & Hk & Hexp). split.
      + discriminate.
      + intros [Hk' Hfresh]. rewrite Hk in Hk'. injection Hk' as -> ->.
        apply Qle_not_lt in Hexp. contradiction.
    - split; [|tauto]. intros Hk. split; [exact Hk|].
      apply Qnot_le_lt. intros Hexp. apply Hnin, elem_of_expired_keys.
      exists ts, d. auto. }
  split; [exact Hkeep|].
  split.
  { intros key ts d Hk Hexp. rewrite lookup_foldl_delete.
    rewrite decide_True; [reflexivity|].
    apply elem_of_expired_keys. exists ts, d. auto. }
  split.
  { intros key. unfold cache_lookup.
    destruct (foldl _ _ _ !! key) as [[ts d]|] eqn:Hafter.
    - apply Hkeep in Hafter as [-> _]. reflexivity.
    - destruct (api_cache s !! key) as [[ts d]|] eqn:Hbefore; [|reflexivity].
      case_decide as Hfresh; [|reflexivity].
      assert (Hc : foldl (fun m k => delete k m) (api_cache s)
                     (expired_keys (clock s) (api_cache s)) !! key
                   = Some (ts, d)) by (apply Hkeep; auto).
      rewrite Hafter in Hc. discriminate. }
  repeat split.
  apply size_foldl_delete; [apply NoDup_expired_keys|].
  intros k Hk. apply elem_of_expired_keys in Hk as (ts & d & -> & _). eauto.
Qed.

(** ** Rate limiter *)

Lemma list_min_elem (l : list Q) : l ≠ [] → list_min l ∈ l.
Proof.
  destruct l as [|t ts]; [congruence|]. intros _. cbn.
  revert t. induction ts as [|x ts IH]; intros t; cbn; [left|].
  case_decide.
  - right. apply IH.
  - specialize (IH t). apply elem_of_cons in IH as [->|Hin]; [left|].
    right. right. exact Hin.
Qed.

Lemma recent_later (t1 t2 : Q) (l : list Q) :
  (t1 <= t2)%Q → (length (recent t2 l) ≤ length (recent t1 l))%nat.
Proof.
  intros Hle. unfold recent. induction l as [|x l IH]; [reflexivity|].
  rewrite !filter_cons.
  destruct (decide (t2 - x < 60)%Q) as [H2|H2];
    destruct (decide (t1 - x < 60)%Q) as [H1|H1]; cbn; try lia.
  exfalso. apply H1. lra.
Qed.

Lemma length_recent_snoc (now : Q) (l : list Q) :
  length (recent now (l ++ [now])) = S (length (recent now l)).
Proof.
  unfold recent. rewrite filter_app, length_app, filter_cons.
  rewrite decide_True by lra. cbn. lia.
Qed.

(** The wait computed on a full window is always positive and carries the
    oldest retained timestamp out of the window. *)
Lemma time_to_wait_positive (now : Q) (l : list Q) :
  recent now l ≠ [] → (1 # 10 < time_to_wait now (recent now l))%Q.
Proof.
  intros Hne. apply list_min_elem in Hne.
  apply list_elem_of_filter in Hne as [Hage _].
  unfold time_to_wait. lra.
Qed.

Lemma elapse_in_window (d : Q) (s : state) :
  (0 <= d)%Q → (in_window (elapse d s) ≤ in_window s)%nat.
Proof. intros Hd. unfold in_window. cbn. apply recent_later. lra. Qed.

Lemma apply_rate_limit_in_window (lag : Q) (s : state) :
  (0 <= lag)%Q →
  (in_window s ≤ MAX_REQUESTS_PER_MINUTE)%nat →
  (in_window (apply_rate_limit lag s).2 ≤ MAX_REQUESTS_PER_MINUTE)%nat.
Proof.
  intros Hlag Hinv. unfold in_window in *. unfold apply_rate_limit.
  set (kept := recent (clock s) (request_timestamps s)) in *.
  unfold suspension.
  destruct (decide (MAX_REQUESTS_PER_MINUTE ≤ length kept)%nat) as [Hfull|Hroom].
  - assert (Hne : kept ≠ []).
    { intros Hnil. rewrite Hnil in Hfull. cbn in Hfull.
      unfold MAX_REQUESTS_PER_MINUTE in Hfull. lia. }
    pose proof (time_to_wait_positive _ _ Hne) as Hpos. fold kept in Hpos.
    rewrite decide_True by lra. cbn -[recent time_to_wait list_min].
    rewrite length_recent_snoc.
    pose proof (list_min_elem kept Hne) as Hmin.
    assert (Hold : ¬ (clock s + time_to_wait (clock s) kept + lag
                      - list_min kept < 60)%Q).
    { unfold time_to_wait. lra. }
    pose proof (length_filter_lt
      (fun t => (clock s + time_to_wait (clock s) kept + lag - t < 60)%Q)
      kept _ Hmin Hold) as Hlt.
    unfold recent at 1. lia.
  - cbn -[recent]. rewrite length_recent_snoc.
    assert (Hle : (length (recent (clock s + lag) kept) ≤ length kept)%nat)
      by apply length_filter.
    lia.
Qed.

Lemma acquire_all_in_window (calls : list (Q * Q)) (s : state) :
  Forall (fun c => (0 <= c.1)%Q ∧ (0 <= c.2)%Q) calls →
  (in_window s ≤ MAX_REQUESTS_PER_MINUTE)%nat →
  (in_window (acquire_all calls s) ≤ MAX_REQUESTS_PER_MINUTE)%nat.
Proof.
  intros Hcalls. revert s.
  induction Hcalls as [|[gap lag] calls [Hgap Hlag] _ IH]; intros s Hinv;
    [exact Hinv|].
  cbn. apply IH. apply apply_rate_limit_in_window; [exact Hlag|].
  etrans; [apply elapse_in_window, Hgap|exact Hinv].
Qed.

Lemma list_min_lower_bound (l : list Q) (t : Q) :
  t ∈ l → (list_min l <= t)%Q.
Proof.
  destruct l as [|t0 ts]; [intros Hin; apply elem_of_nil in Hin; contradiction|].
  cbn.
  assert (Hfold : ∀ ts m,
    (foldl (fun m x => if decide (x < m)%Q then x else m) m ts <= m)%Q ∧
    ∀ x, x ∈ ts →
      (foldl (fun m x => if decide (x < m)%Q then x else m) m ts <= x)%Q).
  { clear. induction ts as [|y ts IH]; intros m; cbn.
    - split; [lra|]. intros x Hx. apply elem_of_nil in Hx. contradiction.
    - case_decide as Hlt.
      + destruct (IH y) as [Hy Hrest]. split; [lra|].
        intros x Hx. apply elem_of_cons in Hx as [->|Hx]; [exact Hy|].
        apply Hrest, Hx.
      + destruct (IH m) as [Hm Hrest]. apply Qnot_lt_le in Hlt. split; [exact Hm|].
        intros x Hx. apply elem_of_cons in Hx as [->|Hx]; [lra|].
        apply Hrest, Hx. }
  destruct (Hfold ts t0) as [Hhead Htail].
  intros Hin. apply elem_of_cons in Hin as [->|Hin]; [exact Hhead|].
  apply Htail, Hin.
Qed.

(** C7.  Starting from the empty log, after every call of a sequence of
    limiter calls separated by idle time, at most 60 logged timestamps are
    younger than 60 seconds.  Each call keeps exactly the timestamps
    younger than 60 seconds, in their order; with fewer than 60 of them it
    does not suspend; with 60 or more it suspends for
    [60 - (now - oldest) + 0.1], [oldest] being the least of them, a wait
    that always exceeds 0.1; it then appends the time it reads next. *)
Theorem rate_limit_window_bound (t0 : Q) (calls : list (Q * Q)) :
  Forall (fun c => (0 <= c.1)%Q ∧ (0 <= c.2)%Q) calls →
  (∀ n, let s := acquire_all (take n calls) (initial_state t0) in
        (length (filter (fun t => (clock s - t < 60)%Q) (request_timestamps s))
         ≤ 60)%nat) ∧
  (∀ lag s,
     let now := clock s in
     let kept := filter (fun t => (now - t < 60)%Q) (request_timestamps s) in
     let r := apply_rate_limit lag s in
     request_timestamps r.2 = (kept ++ [clock r.2])%list ∧
     ((length kept < 60)%nat → r.1 = [] ∧ clock r.2 = (now + lag)%Q) ∧
     ((60 ≤ length kept)%nat →
        ∃ oldest, oldest ∈ kept ∧ (∀ t, t ∈ kept → (oldest <= t)%Q) ∧
          let wait := (60 - (now - oldest) + (1 # 10))%Q in
          (1 # 10 < wait)%Q ∧ r.1 = [Sleep wait] ∧
          clock r.2 = (now + wait + lag)%Q)).
Proof.
  intros Hcalls. split.
  - intros n. cbv zeta.
    apply (acquire_all_in_window (take n calls) (initial_state t0)).
    + apply Forall_take, Hcalls.
    + unfold in_window. cbn. unfold MAX_REQUESTS_PER_MINUTE. lia.
  - intros lag s. cbv zeta.
    change (filter (fun t => (clock s - t < 60)%Q) (request_timestamps s))
      with (recent (clock s) (request_timestamps s)).
    set (kept := recent (clock s) (request_timestamps s)).
    unfold apply_rate_limit, suspension. fold kept.
    change MAX_REQUESTS_PER_MINUTE with 60%nat.
    destruct (decide (60 ≤ length kept)%nat) as [Hfull|Hroom].
    + assert (Hne : kept ≠ []).
      { intros Hnil. rewrite Hnil in Hfull. cbn in Hfull. lia. }
      pose proof (time_to_wait_positive (clock s) (request_timestamps s) Hne)
        as Hpos. fold kept in Hpos.
      rewrite decide_True by lra. cbn -[time_to_wait].
      split; [reflexivity|]. split; [intros; lia|].
      intros _. exists (list_min kept).
      split; [apply list_min_elem, Hne|].
      split; [intros t Ht; apply list_min_lower_bound, Ht|].
      split; [exact Hpos|]. split; reflexivity.
    + cbn. split; [reflexivity|]. split; [intros _; split; reflexivity|].
      intros; lia.
Qed.

(** ** Cache keys *)

#[local] Instance item_le_trans : Transitive Dict.item_le.
Proof. intros p q r. unfold Dict.item_le. apply transitivity. Qed.

#[local] Instance item_le_total : Total Dict.item_le.
Proof. intros p q. unfold Dict.item_le. apply total, _. Qed.

(** In a dict a key determines its value. *)
Lemma wf_functional (d : list (string * value)) k v1 v2 :
  Dict.wf d → (k, v1) ∈ d → (k, v2) ∈ d → v1 = v2.
Proof.
  intros Hwf H1 H2.
  apply (elem_of_list_to_map (M := gmap string) d k v1 Hwf) in H1.
  apply (elem_of_list_to_map (M := gmap string) d k v2 Hwf) in H2.
  congruence.
Qed.

(** Sorting forgets the insertion order of a dict. *)
Lemma sorted_permutation (a b : list (string * value)) :
  Dict.wf a → a ≡ₚ b → Dict.sorted a = Dict.sorted b.
Proof.
  intros Hwf Hperm. unfold Dict.sorted.
  apply (StronglySorted_unique_strong Dict.item_le).
  - intros [k1 v1] [k2 v2] H1 H2 Hle Hge.
    rewrite merge_sort_Permutation in H1.
    rewrite merge_sort_Permutation, <- Hperm in H2.
    unfold Dict.item_le in Hle, Hge. cbn in Hle, Hge.
    assert (k1 = k2) as -> by (apply (anti_symm String.le); assumption).
    f_equal. eapply wf_functional; eassumption.
  - apply StronglySorted_merge_sort; apply _.
  - apply StronglySorted_merge_sort; apply _.
  - rewrite !merge_sort_Permutation. exact Hperm.
Qed.

Lemma set_keys (d : list (string * value)) k v :
  (Dict.set d k v).*1 = if decide (k ∈ d.*1) then d.*1 else (d.*1 ++ [k])%list.
Proof.
  induction d as [|[k' v'] d IH]; cbn.
  { rewrite decide_False by apply not_elem_of_nil. reflexivity. }
  destruct (decide (k' = k)) as [->|Hne]; cbn.
  - rewrite decide_True by left. reflexivity.
  - rewrite IH. destruct (decide (k ∈ d.*1)) as [Hin|Hnin].
    + rewrite decide_True by (right; exact Hin). reflexivity.
    + rewrite decide_False; [reflexivity|].
      intros Hc. apply elem_of_cons in Hc as [->|Hc]; tauto.
Qed.

Lemma set_wf (d : list (string * value)) k v :
  Dict.wf d → Dict.wf (Dict.set d k v).
Proof.
  unfold Dict.wf. intros Hwf. rewrite set_keys. case_decide as Hin; [exact Hwf|].
  apply NoDup_app. split; [exact Hwf|]. split; [|apply NoDup_singleton].
  intros x Hx Hk. apply list_elem_of_singleton in Hk as ->. contradiction.
Qed.

Lemma set_to_map (d : list (string * value)) k v :
  (list_to_map (Dict.set d k v) : gmap string value)
  = <[k:=v]> (list_to_map d).
Proof.
  induction d as [|[k' v'] d IH]; cbn; [reflexivity|].
  destruct (decide (k' = k)) as [->|Hne]; cbn.
  - rewrite insert_insert_eq. reflexivity.
  - rewrite IH. apply insert_insert_ne. exact Hne.
Qed.

Lemma update_wf (d other : list (string * value)) :
  Dict.wf d → Dict.wf (Dict.update d other).
Proof.
  unfold Dict.update. revert d.
  induction other as [|[k v] other IH]; intros d Hwf; cbn; [exact Hwf|].
  apply IH, set_wf, Hwf.
Qed.

Lemma update_to_map (d other : list (string * value)) :
  Dict.wf other →
  (list_to_map (Dict.update d other) : gmap string value)
  = list_to_map other ∪ list_to_map d.
Proof.
  unfold Dict.update, Dict.wf. revert d.
  induction other as [|[k v] other IH]; intros d Hwf; cbn.
  { rewrite (left_id ∅ (∪)). reflexivity. }
  apply NoDup_cons in Hwf as [Hk Hwf].
  rewrite IH by exact Hwf. rewrite set_to_map.
  rewrite <- insert_union_r by (apply not_elem_of_list_to_map_1, Hk).
  rewrite insert_union_l. reflexivity.
Qed.

Section CacheKeys.

Variable api_key : string.

Lemma API_PARAMS_wf : Dict.wf (API_PARAMS api_key).
Proof.
  unfold API_PARAMS, Dict.wf. case_decide; cbn.
  - apply NoDup_nil_2.
  - apply NoDup_singleton.
Qed.

Lemma request_params_permutation (a b : list (string * value)) :
  Dict.wf a → a ≡ₚ b →
  Dict.wf (request_params api_key (Some a)) ∧
  request_params api_key (Some a) ≡ₚ request_params api_key (Some b).
Proof.
  intros Hwf Hperm.
  assert (Hwfb : Dict.wf b).
  { unfold Dict.wf in *. rewrite <- Hperm. exact Hwf. }
  assert (Hupd : ∀ p, Dict.wf p →
            request_params api_key (Some p) = Dict.update (API_PARAMS api_key) p).
  { intros [|kv rest] _; reflexivity. }
  rewrite !Hupd by assumption.
  split; [apply update_wf, API_PARAMS_wf|].
  apply (list_to_map_inj (M := gmap string));
    [apply update_wf, API_PARAMS_wf..|].
  rewrite !update_to_map by assumption.
  f_equal. apply list_to_map_proper; assumption.
Qed.

(** C8.  Two parameter mappings with the same key/value pairs, inserted in
    any order, sort to the same list of items and so give the same cache
    key, both in [get_cache_key] and in the key the dispatcher builds from
    the defaults merged with the parameters. *)
Theorem cache_key_order_independent (endpoint : string)
    (paramsA paramsB : list (string * value)) :
  Dict.wf paramsA → Dict.wf paramsB →
  (∀ k v, (k, v) ∈ paramsA ↔ (k, v) ∈ paramsB) →
  Dict.sorted paramsA = Dict.sorted paramsB ∧
  get_cache_key endpoint (Some paramsA) = get_cache_key endpoint (Some paramsB) ∧
  cache_key api_key endpoint (Some paramsA)
  = cache_key api_key endpoint (Some paramsB).
Proof.
  intros HwfA HwfB Hsame.
  assert (Hperm : paramsA ≡ₚ paramsB).
  { apply NoDup_Permutation.
    - eapply NoDup_fmap_1, HwfA.
    - eapply NoDup_fmap_1, HwfB.
    - intros [k v]. apply Hsame. }
  pose proof (sorted_permutation _ _ HwfA Hperm) as Hsorted.
  split; [exact Hsorted|]. split.
  - destruct paramsA as [|a restA], paramsB as [|b restB].
    + reflexivity.
    + apply Permutation_nil in Hperm. discriminate.
    + symmetry in Hperm. apply Permutation_nil in Hperm. discriminate.
    + unfold get_cache_key, param_str. rewrite Hsorted. reflexivity.
  - destruct (request_params_permutation _ _ HwfA Hperm) as [Hwf Hreq].
    pose proof (sorted_permutation _ _ Hwf Hreq) as Hreqsorted.
    unfold cache_key.
    destruct (request_params api_key (Some paramsA)) as [|a restA],
             (request_params api_key (Some paramsB)) as [|b restB].
    + reflexivity.
    + apply Permutation_nil in Hreq. discriminate.
    + symmetry in Hreq. apply Permutation_nil in Hreq. discriminate.
    + unfold param_str. rewrite Hreqsorted. reflexivity.
Qed.

End CacheKeys.

(** C10.  The key derivation is not injective: the mappings
    [{"q": "a&r=b"}] and [{"q": "a", "r": "b"}] differ in their key/value
    pairs and give the same cache key for the endpoint ["search"], whatever
    the API key; the second request is then answered from the entry the
    first one stored, and a later fetch of one overwrites the entry of the
    other. *)
Theorem cache_key_not_injective :
  ∃ endpoint paramsA paramsB,
    Dict.wf paramsA ∧ Dict.wf paramsB ∧
    ¬ (∀ k v, (k, v) ∈ paramsA ↔ (k, v) ∈ paramsB) ∧
    get_cache_key endpoint (Some paramsA) = get_cache_key endpoint (Some paramsB) ∧
    (∀ api_key, cache_key api_key endpoint (Some paramsA)
                = cache_key api_key endpoint (Some paramsB)) ∧
    (run "" [(0%Q, endpoint, Some paramsA, Sample.ok Sample.wins);
             (0%Q, endpoint, Some paramsB, Sample.ok Sample.other)]
         (initial_state 0)).1
    = [(Payload Sample.wins,
        [HttpGet "https://api.opendota.com/api/search" paramsA]);
       (Payload Sample.wins, [])] ∧
    api_cache (run "" [(0%Q, endpoint, Some paramsA, Sample.ok Sample.wins);
                       (301%Q, endpoint, Some paramsB, Sample.ok Sample.other)]
                   (initial_state 0)).2
    !! get_cache_key endpoint (Some paramsA) = Some (301%Q, Sample.other).
Proof.
  exists "search", Sample.one_param, Sample.two_params.
  split; [solve_wf|].
  split; [solve_wf|].
  split.
  { intros Hsame. specialize (Hsame "q" (VStr "a&r=b")).
    assert (Hin : ("q", VStr "a&r=b") ∈ Sample.two_params)
      by (apply Hsame; left).
    unfold Sample.two_params in Hin.
    rewrite !elem_of_cons, elem_of_nil in Hin.
    destruct Hin as [Hin|[Hin|[]]]; discriminate. }
  split; [vm_compute; reflexivity|].
  split.
  { intros api_key. unfold cache_key, request_params, API_PARAMS.
    case_decide; vm_compute; reflexivity. }
  split; vm_compute; reflexivity.
Qed.

(** * Scenarios *)

Example get_cache_key_sorted :
  get_cache_key "players/1/matches"
    (Some [("limit", VInt 5); ("hero_id", VInt (-1)); ("win", VBool true)])
  = "players/1/matches?hero_id=-1&limit=5&win=True".
Proof. vm_compute. reflexivity. Qed.

Example get_cache_key_no_params :
  get_cache_key "heroes" None = "heroes" ∧ get_cache_key "heroes" (Some []) = "heroes".
Proof. split; reflexivity. Qed.

(** TTL 300: an entry stored at [t = 0] is served at 299 and not at 301. *)
Example ttl_scenario :
  let cache := api_cache (cache_store "players/1" Sample.wins (initial_state 0)) in
  cache_lookup cache "players/1" 299 = Some Sample.wins ∧
  cache_lookup cache "players/1" 300 = None ∧
  cache_lookup cache "players/1" 301 = None.
Proof. vm_compute. repeat split; reflexivity. Qed.

(** A sweep at [t = 400] of entries stored at 0, 50, 200 and 350 removes
    the first two and reports 2 removed, 2 remaining. *)
Example sweep_scenario :
  let s := {| clock := 400; request_timestamps := [];
              api_cache := list_to_map [("a", (0%Q, Sample.wins));
                                        ("b", (50%Q, Sample.wins));
                                        ("c", (200%Q, Sample.other));
                                        ("d", (350%Q, Sample.other))] |} in
  (cleanup_cache s).1 = (2, 2) ∧
  map (fun k => cache_lookup (api_cache (cleanup_cache s).2) k 400)
      ["a"; "b"; "c"; "d"]
  = [None; None; Some Sample.other; Some Sample.other].
Proof. vm_compute. split; reflexivity. Qed.

(** ** Where the code departs from the claims *)

(** C1 (as stated) fails.  A call served from the cache finds the limiter
    log changed, and in a burst of 65 calls for one endpoint, all cache hits
    after the first, every call appends to the log and the 61st is suspended
    for 60.1 seconds. *)
Lemma cache_hit_touches_limiter :
  let e := Sample.failing (ConnectError "unreachable") in
  let r := make_opendota_request "" "players/1" None e Sample.warm in
  cache_check "" "players/1" None e Sample.warm = Some Sample.wins ∧
  r.1.1 = Payload Sample.wins ∧
  request_timestamps r.2 ≠ request_timestamps Sample.warm ∧
  map fst (run "" Sample.burst (initial_state 0)).1
  = replicate 65 (Payload Sample.wins) ∧
  map snd (run "" Sample.burst (initial_state 0)).1
  = ([HttpGet "https://api.opendota.com/api/players/1" []]
       :: replicate 59 [] ++ [[Sleep (601 # 10)]] ++ replicate 4 [])%list ∧
  length (request_timestamps (run "" (take 61 Sample.burst) (initial_state 0)).2)
  = 61.
Proof.
  vm_compute. split; [reflexivity|]. split; [reflexivity|].
  split; [discriminate|]. repeat split; reflexivity.
Qed.

(** C3 (as stated) fails.  A connection failure ends in the catch-all
    handler: the error result is of kind [Unknown], not [TransportError],
    and its message repeats the description of the failure, so that two
    failures give two messages. *)
Lemma connection_failure_is_unknown :
  let call (x : exn) :=
    (make_opendota_request "" "health" None (Sample.failing x)
                           (initial_state 0)).1.1 in
  no_status_failure (Failed (ConnectError "All connection attempts failed"))
                    "All connection attempts failed" ∧
  cache_check "" "health" None
    (Sample.failing (ConnectError "All connection attempts failed"))
    (initial_state 0) = None ∧
  call (ConnectError "All connection attempts failed")
  = ErrorResult (Classified Unknown
                   "Unexpected error: All connection attempts failed") ∧
  ¬ (∃ c, call (ConnectError "All connection attempts failed") = ErrorResult c
          ∧ kind c = TransportError) ∧
  call (TimeoutException "timed out")
  = ErrorResult (Classified Unknown "Unexpected error: timed out") ∧
  call (ConnectError "All connection attempts failed")
  = call (InternalFault "All connection attempts failed").
Proof.
  cbv zeta. split; [left; reflexivity|].
  split; [vm_compute; reflexivity|].
  split; [vm_compute; reflexivity|].
  split.
  { intros (c & Hc & Hkind). vm_compute in Hc. injection Hc as <-.
    discriminate. }
  split; vm_compute; reflexivity.
Qed.

(** C9 (as stated) fails.  An internal fault raised by the client is not
    propagated: the call returns the dict [{"error": "Unexpected error: ..."}]. *)
Lemma internal_fault_not_raised :
  let x := InternalFault "'NoneType' object is not subscriptable" in
  let o := (make_opendota_request "" "health" None (Sample.failing x)
                                  (initial_state 0)).1.1 in
  internal_fault (Failed x) "'NoneType' object is not subscriptable" ∧
  o ≠ Raised x ∧
  returned o
  = Some (JDict [("error",
      JStr "Unexpected error: 'NoneType' object is not subscriptable")]).
Proof.
  cbv zeta. split; [left; reflexivity|].
  split; [vm_compute; discriminate|vm_compute; reflexivity].
Qed.

(** ** The theorems at concrete inputs *)

Lemma cache_lookup_fresh_witness :
  (0 < 1)%Q ∧
  let put := cache_store "players/1" Sample.wins (initial_state 0) in
  cache_lookup (api_cache put) "players/1" (0 + CACHE_TTL - 1) = Some Sample.wins ∧
  cache_lookup (api_cache put) "players/1" (0 + CACHE_TTL + 1) = None.
Proof.
  assert (Hε : (0 < 1)%Q) by reflexivity.
  split; [exact Hε|].
  pose proof (cache_lookup_fresh (initial_state 0) "players/1" 299 1
                                 Sample.wins Hε) as (_ & _ & Hhit & Hmiss & _).
  split; [exact Hhit|exact Hmiss].
Defined.

Lemma http_failure_classified_witness :
  cache_check "" "teams/0" None (Sample.status 503 "Service Unavailable")
              (initial_state 0) = None ∧
  (make_opendota_request "" "teams/0" None
     (Sample.status 503 "Service Unavailable") (initial_state 0)).1.1
  = ErrorResult (Classified UpstreamServerError
                   "OpenDota API server error. Please try again later.").
Proof.
  assert (Hmiss : cache_check "" "teams/0" None
                    (Sample.status 503 "Service Unavailable") (initial_state 0)
                  = None) by reflexivity.
  split; [exact Hmiss|].
  destruct (http_failure_classified "" "teams/0" None
              (Sample.status 503 "Service Unavailable") (initial_state 0) _
              Hmiss eq_refl eq_refl) as (c & Hc & _ & _ & H500 & _).
  rewrite Hc. f_equal. apply H500. cbn. lia.
Defined.

Lemma no_status_failure_classified_witness :
  cache_check "" "health" None (Sample.failing (TimeoutException "timed out"))
              (initial_state 0) = None ∧
  no_status_failure (Failed (TimeoutException "timed out")) "timed out" ∧
  (make_opendota_request "" "health" None
     (Sample.failing (TimeoutException "timed out")) (initial_state 0)).1.1
  = ErrorResult (Classified Unknown "Unexpected error: timed out").
Proof.
  assert (Hmiss : cache_check "" "health" None
                    (Sample.failing (TimeoutException "timed out"))
                    (initial_state 0) = None) by reflexivity.
  assert (Hfail : no_status_failure (Failed (TimeoutException "timed out"))
                                    "timed out") by (right; left; reflexivity).
  split; [exact Hmiss|]. split; [exact Hfail|].
  rewrite (no_status_failure_classified "" "health" None
             (Sample.failing (TimeoutException "timed out")) (initial_state 0)
             "timed out" Hmiss Hfail).
  reflexivity.
Defined.

Lemma internal_fault_absorbed_witness :
  ¬ cancelled_in_sleep (Faults None (Some (InternalFault "boom")) None)
                       (initial_state 0) ∧
  cache_check "" "health" None (Sample.failing (InternalFault "boom"))
              (initial_state 0) = None ∧
  (make_opendota_request_raising ""
     (Faults None (Some (InternalFault "boom")) None) "health" None
     (Sample.failing (InternalFault "boom")) (initial_state 0)).1.1
  = Raised (InternalFault "boom") ∧
  (make_opendota_request_raising "" no_faults "health" None
     (Sample.failing (InternalFault "boom")) (initial_state 0)).1.1
  = ErrorResult (Classified Unknown "Unexpected error: boom").
Proof.
  assert (Hnot : ∀ c k, ¬ cancelled_in_sleep (Faults None c k) (initial_state 0)).
  { intros c k [_ [x Hx]]. discriminate. }
  assert (Hmiss : cache_check "" "health" None
                    (Sample.failing (InternalFault "boom")) (initial_state 0)
                  = None) by reflexivity.
  split; [apply Hnot|]. split; [exact Hmiss|]. split.
  - destruct (internal_fault_absorbed ""
                (Faults None (Some (InternalFault "boom")) None) "health" None
                (Sample.failing (InternalFault "boom")) (initial_state 0) "boom"
                (Hnot _ _) Hmiss) as (Hclient & _ & _).
    apply (Hclient (InternalFault "boom") eq_refl).
  - destruct (internal_fault_absorbed "" no_faults "health" None
                (Sample.failing (InternalFault "boom")) (initial_state 0) "boom"
                (Hnot _ _) Hmiss) as (_ & _ & Htry).
    apply Htry; [reflexivity..|]. left. reflexivity.
Defined.

Lemma cache_hit_effects_witness :
  cache_check "" "players/1" None (Sample.failing (ConnectError "unreachable"))
              Sample.warm = Some Sample.wins ∧
  (make_opendota_request "" "players/1" None
     (Sample.failing (ConnectError "unreachable")) Sample.warm).1.1
  = Payload Sample.wins.
Proof.
  assert (Hhit : cache_check "" "players/1" None
                   (Sample.failing (ConnectError "unreachable")) Sample.warm
                 = Some Sample.wins) by (vm_compute; reflexivity).
  split; [exact Hhit|].
  apply (cache_hit_effects "" "players/1" None
           (Sample.failing (ConnectError "unreachable")) Sample.warm
           Sample.wins Hhit).
Defined.

Lemma rate_limit_window_bound_witness :
  Forall (fun c => (0 <= c.1)%Q ∧ (0 <= c.2)%Q) (replicate 61 (0%Q, 0%Q)) ∧
  (let s := acquire_all (replicate 61 (0%Q, 0%Q)) (initial_state 0) in
   (length (filter (fun t => (clock s - t < 60)%Q) (request_timestamps s))
    ≤ 60)%nat) ∧
  (let s := acquire_all (replicate 60 (0%Q, 0%Q)) (initial_state 0) in
   (60 ≤ length (filter (fun t => (clock s - t < 60)%Q) (request_timestamps s)))%nat ∧
   ∃ wait, (apply_rate_limit 0 s).1 = [Sleep wait] ∧ (1 # 10 < wait)%Q).
Proof.
  assert (Hcalls : Forall (fun c => (0 <= c.1)%Q ∧ (0 <= c.2)%Q)
                          (replicate 61 (0%Q, 0%Q))).
  { apply Forall_replicate. split; cbn; lra. }
  destruct (rate_limit_window_bound 0 _ Hcalls) as [Hbound Hcall].
  split; [exact Hcalls|]. split; [exact (Hbound 61)|].
  cbv zeta.
  assert (Hfull : (60 ≤ length (filter
            (fun t => (clock (acquire_all (replicate 60 (0%Q, 0%Q))
                                          (initial_state 0)) - t < 60)%Q)
            (request_timestamps (acquire_all (replicate 60 (0%Q, 0%Q))
                                             (initial_state 0)))))%nat).
  { vm_compute. lia. }
  split; [exact Hfull|].
  destruct (Hcall 0%Q (acquire_all (replicate 60 (0%Q, 0%Q)) (initial_state 0)))
    as (_ & _ & Hsleep).
  destruct (Hsleep Hfull) as (oldest & _ & _ & Hpos & Hevs & _).
  eexists. split; [exact Hevs|exact Hpos].
Defined.

Lemma cache_key_order_independent_witness :
  Dict.wf Sample.paramsA ∧ Dict.wf Sample.paramsB ∧
  (∀ k v, (k, v) ∈ Sample.paramsA ↔ (k, v) ∈ Sample.paramsB) ∧
  cache_key "k" "players/1/matches" (Some Sample.paramsA)
  = cache_key "k" "players/1/matches" (Some Sample.paramsB).
Proof.
  assert (HA : Dict.wf Sample.paramsA) by solve_wf.
  assert (HB : Dict.wf Sample.paramsB) by solve_wf.
  assert (Hsame : ∀ k v, (k, v) ∈ Sample.paramsA ↔ (k, v) ∈ Sample.paramsB).
  { intros k v. unfold Sample.paramsA, Sample.paramsB.
    rewrite !elem_of_cons, !elem_of_nil. tauto. }
  split; [exact HA|]. split; [exact HB|]. split; [exact Hsame|].
  apply (cache_key_order_independent "k" "players/1/matches" _ _ HA HB Hsame).
Defined.

(** * Further properties *)

(** ** Presentation helpers *)

(** A property decided on every integer of a range holds on the range. *)
Lemma range_decide (P : Z → Prop) `{∀ x, Decision (P x)} (m n : Z) :
  bool_decide (Forall P (seqZ m n)) = true →
  ∀ k, (m ≤ k < m + n)%Z → P k.
Proof. intros Hall. apply Forall_seqZ. apply bool_decide_eq_true in Hall. exact Hall. Qed.

Lemma string_length_app (s t : string) :
  String.length (s ++ t) = String.length s + String.length t.
Proof.
  induction s as [|a s IH]; [reflexivity|].
  change (S (String.length (s ++ t)) = S (String.length s + String.length t)).
  rewrite IH. reflexivity.
Qed.

(** Two concatenations with suffixes of the same length agree part by part. *)
Lemma string_app_inj (s1 s2 t1 t2 : string) :
  s1 ++ t1 = s2 ++ t2 → String.length t1 = String.length t2 →
  s1 = s2 ∧ t1 = t2.
Proof.
  revert s2. induction s1 as [|a s1 IH]; intros [|b s2] Heq Hlen.
  - auto.
  - change (t1 = String b s2 ++ t2) in Heq. rewrite Heq in Hlen.
    rewrite string_length_app in Hlen. cbn in Hlen. lia.
  - change (String a s1 ++ t1 = t2) in Heq. rewrite <- Heq in Hlen.
    rewrite string_length_app in Hlen. cbn in Hlen. lia.
  - change (String a (s1 ++ t1) = String b (s2 ++ t2)) in Heq.
    injection Heq as -> Heq. destruct (IH s2 Heq Hlen) as [-> ->]. auto.
Qed.

Lemma format_rank_tier_low (r : Z) :
  (r < 10)%Z → format_rank_tier (Some r) = "Unknown".
Proof.
  intros Hr. unfold format_rank_tier. case_decide; [reflexivity|].
  rewrite decide_True; [reflexivity|]. left. Z.div_mod_to_equations. lia.
Qed.

Lemma format_rank_tier_high (r : Z) :
  (90 ≤ r)%Z → format_rank_tier (Some r) = "Unknown".
Proof.
  intros Hr. unfold format_rank_tier. case_decide; [reflexivity|].
  rewrite decide_True; [reflexivity|]. right. cbn. Z.div_mod_to_equations. lia.
Qed.

(** X1.  [format_rank_tier] answers ["Unknown"] exactly for [None] and for
    the integers below 10 or from 90 up. *)
Theorem format_rank_tier_unknown (rank_tier : option Z) :
  format_rank_tier rank_tier = "Unknown" ↔
  rank_tier = None ∨ ∃ r, rank_tier = Some r ∧ (r < 10 ∨ 90 ≤ r)%Z.
Proof.
  destruct rank_tier as [r|]; [|split; auto].
  split.
  - intros Hfmt. right. exists r. split; [reflexivity|].
    destruct (decide (r < 10 ∨ 90 ≤ r)%Z) as [Hout|Hin]; [exact Hout|].
    exfalso. revert Hfmt.
    apply (range_decide (fun k => format_rank_tier (Some k) ≠ "Unknown") 10 80);
      [vm_compute; reflexivity|lia].
  - intros [Hnone|(r' & [= <-] & [Hlow|Hhigh])]; [discriminate|..].
    + apply format_rank_tier_low, Hlow.
    + apply format_rank_tier_high, Hhigh.
Qed.

(** X2.  Rank tiers from 10 to 79 are shown as the medal name and the last
    digit, and no two of them are shown alike; every tier from 80 to 89 is
    shown as ["Immortal"], whatever its last digit. *)
Theorem format_rank_tier_medals (r1 r2 : Z) :
  (10 ≤ r1 < 90)%Z → (10 ≤ r2 < 90)%Z →
  (format_rank_tier (Some r1) = format_rank_tier (Some r2) ↔
   r1 = r2 ∨ (80 ≤ r1 ∧ 80 ≤ r2)%Z) ∧
  ((r1 < 80)%Z →
     format_rank_tier (Some r1)
     = nth (Z.to_nat (r1 / 10)) ranks "" ++ " " ++ pretty (r1 mod 10)%Z) ∧
  ((80 ≤ r1)%Z → format_rank_tier (Some r1) = "Immortal").
Proof.
  intros H1 H2.
  pose proof (range_decide
    (fun a => Forall (fun b =>
       format_rank_tier (Some a) = format_rank_tier (Some b) ↔
       a = b ∨ (80 ≤ a ∧ 80 ≤ b)%Z) (seqZ 10 80)) 10 80) as Hpairs.
  split; [|split].
  - specialize (Hpairs ltac:(vm_compute; reflexivity) r1 ltac:(lia)).
    rewrite Forall_seqZ in Hpairs. apply Hpairs. lia.
  - intros Hlt. revert H1 Hlt. revert r1.
    assert (Hall : ∀ k, (10 ≤ k < 10 + 70)%Z →
      format_rank_tier (Some k)
      = nth (Z.to_nat (k / 10)) ranks "" ++ " " ++ pretty (k mod 10)%Z).
    { apply (range_decide _ 10 70). vm_compute. reflexivity. }
    intros r1 H1 Hlt. apply Hall. lia.
  - intros Hge.
    apply (range_decide (fun k => format_rank_tier (Some k) = "Immortal") 80 10);
      [vm_compute; reflexivity|lia].
Qed.

(** X3.  The first entry of the table is never shown: no input makes
    [format_rank_tier] answer with a text that starts with ["Unranked"]. *)
Theorem format_rank_tier_never_unranked (rank_tier : option Z) :
  String.prefix "Unranked" (format_rank_tier rank_tier) = false.
Proof.
  destruct rank_tier as [r|]; [|reflexivity].
  destruct (decide (r < 10)%Z) as [Hlow|Hlow].
  { rewrite format_rank_tier_low by exact Hlow. reflexivity. }
  destruct (decide (90 ≤ r)%Z) as [Hhigh|Hhigh].
  { rewrite format_rank_tier_high by exact Hhigh. reflexivity. }
  apply (range_decide
    (fun k => String.prefix "Unranked" (format_rank_tier (Some k)) = false) 10 80);
    [vm_compute; reflexivity|lia].
Qed.


Lemma format_02d_length (r : Z) :
  (0 ≤ r < 60)%Z → String.length (format_02d r) = 2.
Proof.
  intros Hr.
  apply (range_decide (fun k => String.length (format_02d k) = 2) 0 60);
    [vm_compute; reflexivity|lia].
Qed.

Lemma format_02d_inj (r1 r2 : Z) :
  (0 ≤ r1 < 60)%Z → (0 ≤ r2 < 60)%Z →
  format_02d r1 = format_02d r2 → r1 = r2.
Proof.
  intros H1 H2.
  pose proof (range_decide
    (fun a => Forall (fun b => format_02d a = format_02d b → a = b) (seqZ 0 60))
    0 60) as Hpairs.
  specialize (Hpairs ltac:(vm_compute; reflexivity) r1 ltac:(lia)).
  rewrite Forall_seqZ in Hpairs. apply Hpairs. lia.
Qed.

Theorem format_duration_inj (a b : Z) :
  format_duration a = format_duration b → a = b.
Proof.
  unfold format_duration. intros Heq.
  assert (Ha : (0 ≤ a mod 60 < 60)%Z) by (apply Z.mod_pos_bound; lia).
  assert (Hb : (0 ≤ b mod 60 < 60)%Z) by (apply Z.mod_pos_bound; lia).
  apply string_app_inj in Heq as [Hmin Hsec].
  - apply (inj pretty) in Hmin.
    apply (inj (String.app ":")) in Hsec.
    apply format_02d_inj in Hsec; [|assumption..].
    assert (a = 60 * (a / 60) + a mod 60)%Z by (apply Z.div_mod; lia).
    assert (b = 60 * (b / 60) + b mod 60)%Z by (apply Z.div_mod; lia).
    congruence.
  - rewrite !string_length_app, !format_02d_length by assumption.
    reflexivity.
Qed.

Theorem format_duration_minutes_seconds (m r : Z) :
  (0 ≤ r < 60)%Z →
  format_duration (60 * m + r) = pretty m ++ ":" ++ format_02d r ∧
  String.length (format_02d r) = 2 ∧
  ((r < 10)%Z → format_02d r = "0" ++ pretty r) ∧
  ((10 ≤ r)%Z → format_02d r = pretty r).
Proof.
  intros Hr. split; [|split; [|split]].
  - unfold format_duration.
    assert (Hq : ((60 * m + r) / 60 = m)%Z).
    { symmetry. apply (Z.div_unique_pos _ _ m r); lia. }
    assert (Hm : ((60 * m + r) mod 60 = r)%Z).
    { symmetry. apply (Z.mod_unique_pos _ _ m r); lia. }
    rewrite Hq, Hm. reflexivity.
  - apply format_02d_length, Hr.
  - intros Hlt.
    apply (range_decide (fun k => format_02d k = "0" ++ pretty k) 0 10);
      [vm_compute; reflexivity|lia].
  - intros Hge.
    apply (range_decide (fun k => format_02d k = pretty k) 10 50);
      [vm_compute; reflexivity|lia].
Qed.

(** ** Cache keys and the configured credential *)

Lemma set_fresh (d : list (string * value)) k v :
  k ∉ d.*1 → Dict.set d k v = (d ++ [(k, v)])%list.
Proof.
  induction d as [|[k' v'] d IH]; intros Hk; cbn; [reflexivity|].
  cbn in Hk. apply not_elem_of_cons in Hk as [Hne Hk].
  rewrite decide_False by congruence. rewrite IH by exact Hk. reflexivity.
Qed.

(** Updating with a dict whose keys are all new appends its items in order. *)
Lemma update_disjoint (d other : list (string * value)) :
  Dict.wf other → (∀ k, k ∈ other.*1 → k ∉ d.*1) →
  Dict.update d other = (d ++ other)%list.
Proof.
  unfold Dict.update, Dict.wf. revert d.
  induction other as [|[k v] other IH]; intros d Hwf Hnew; cbn.
  { rewrite app_nil_r. reflexivity. }
  apply NoDup_cons in Hwf as [Hk Hwf].
  rewrite set_fresh by (apply Hnew; left).
  rewrite IH; [rewrite <- app_assoc; reflexivity|exact Hwf|].
  intros k' Hk'. rewrite fmap_app. cbn. intros Hin.
  apply elem_of_app in Hin as [Hin|Hin].
  - apply (Hnew k'); [right; exact Hk'|exact Hin].
  - apply list_elem_of_singleton in Hin as ->. contradiction.
Qed.

(** X6.  Without a configured credential the key built inside the
    dispatcher is the one [get_cache_key] gives for the caller's
    parameters. *)
Theorem cache_key_without_credential (endpoint : string)
    (params : option (list (string * value))) :
  Dict.wf (default [] params) →
  cache_key "" endpoint params = get_cache_key endpoint params.
Proof.
  intros Hwf. unfold cache_key, request_params, API_PARAMS.
  rewrite decide_True by reflexivity.
  destruct params as [[|kv rest]|]; [reflexivity| |reflexivity].
  rewrite update_disjoint; [reflexivity|exact Hwf|].
  intros k _. apply not_elem_of_nil.
Qed.

(** X7.  With a credential configured and no ["api_key"] among the caller's
    parameters, the credential is sent with the request and is part of the
    cache key: the key is the one [get_cache_key] gives for the parameters
    with the item [("api_key", credential)] put in front. *)
Theorem cache_key_with_credential (api_key endpoint : string)
    (params : option (list (string * value))) :
  api_key ≠ "" →
  Dict.wf (default [] params) →
  "api_key" ∉ (default [] params).*1 →
  request_params api_key params
  = ("api_key", VStr api_key) :: default [] params ∧
  cache_key api_key endpoint params
  = get_cache_key endpoint
      (Some (("api_key", VStr api_key) :: default [] params)).
Proof.
  intros Hkey Hwf Hnew.
  assert (Hreq : request_params api_key params
                 = ("api_key", VStr api_key) :: default [] params).
  { unfold request_params, API_PARAMS. rewrite decide_False by exact Hkey.
    destruct params as [[|kv rest]|]; [reflexivity| |reflexivity].
    rewrite update_disjoint; [reflexivity|exact Hwf|].
    intros k Hk Hin. cbn in Hin. apply list_elem_of_singleton in Hin as ->.
    contradiction. }
  split; [exact Hreq|]. unfold cache_key. rewrite Hreq. reflexivity.
Qed.

(** X8.  An ["api_key"] among the caller's parameters replaces the
    configured credential: the request carries exactly the caller's items
    and the cache key is the one of the caller's parameters alone. *)
Theorem caller_api_key_overrides (api_key endpoint : string)
    (params : list (string * value)) :
  Dict.wf params →
  "api_key" ∈ params.*1 →
  request_params api_key (Some params) ≡ₚ params ∧
  cache_key api_key endpoint (Some params)
  = get_cache_key endpoint (Some params).
Proof.
  intros Hwf Hin.
  assert (Hne : ∃ kv rest, params = kv :: rest).
  { destruct params as [|kv rest]; [|eauto].
    cbn in Hin. apply elem_of_nil in Hin. contradiction. }
  destruct Hne as (kv & rest & Hparams).
  assert (Hreq : request_params api_key (Some params)
                 = Dict.update (API_PARAMS api_key) params).
  { rewrite Hparams. reflexivity. }
  assert (Hwfr : Dict.wf (request_params api_key (Some params))).
  { rewrite Hreq. apply update_wf, API_PARAMS_wf. }
  assert (Hperm : request_params api_key (Some params) ≡ₚ params).
  { apply (list_to_map_inj (M := gmap string)); [exact Hwfr|exact Hwf|].
    rewrite Hreq, update_to_map by exact Hwf.
    apply map_eq. intros k. rewrite lookup_union.
    destruct (list_to_map params !! k) as [v|] eqn:Hk.
    { destruct ((list_to_map (API_PARAMS api_key) : gmap string value) !! k);
        reflexivity. }
    apply not_elem_of_list_to_map in Hk.
    unfold API_PARAMS. case_decide; cbn; [reflexivity|].
    rewrite lookup_insert_ne; [reflexivity|].
    intros <-. contradiction. }
  split; [exact Hperm|].
  pose proof (sorted_permutation _ _ Hwfr Hperm) as Hsorted.
  unfold cache_key.
  destruct (request_params api_key (Some params)) as [|a l] eqn:Hrp.
  - apply Permutation_nil in Hperm.
    rewrite Hperm in Hparams. discriminate.
  - rewrite Hparams in *. unfold get_cache_key, param_str.
    rewrite Hsorted. reflexivity.
Qed.

(** ** The dispatcher across calls *)

Lemma apply_rate_limit_no_get (lag : Q) (s : state) url ps :
  HttpGet url ps ∉ (apply_rate_limit lag s).1.
Proof.
  unfold apply_rate_limit. destruct (suspension _ _); cbn; intros Hin.
  - apply list_elem_of_singleton in Hin. discriminate.
  - apply elem_of_nil in Hin. exact Hin.
Qed.

Lemma apply_rate_limit_log (lag : Q) (s : state) :
  request_timestamps (apply_rate_limit lag s).2
  = (recent (clock s) (request_timestamps s)
     ++ [clock (apply_rate_limit lag s).2])%list.
Proof. unfold apply_rate_limit. destruct (suspension _ _); reflexivity. Qed.

Lemma try_fetch_frame key r s :
  request_timestamps (try_fetch key r s).2 = request_timestamps s
  ∧ clock (try_fetch key r s).2 = clock s.
Proof.
  unfold try_fetch. destruct r as [resp|x]; [|auto].
  destruct (is_success resp); [|auto].
  destruct (json_body resp); auto.
Qed.

Lemma classify_None (x : exn) :
  classify x = None ↔ ∃ description, x = Cancelled description.
Proof.
  split.
  - destruct x; cbn; try discriminate; [repeat case_decide; discriminate|eauto].
  - intros [description ->]. reflexivity.
Qed.

Lemma try_fetch_raised key r s x s' :
  try_fetch key r s = (inr x, s') →
  r = Failed x ∨
  ∃ resp, r = Responded resp ∧
          (json_body resp = inr x ∨
           (is_success resp = false
            ∧ x = HTTPStatusError (status_code resp) (text resp))).
Proof.
  unfold try_fetch. destruct r as [resp|x0].
  - destruct (is_success resp) eqn:Hok.
    + destruct (json_body resp) as [data|x0] eqn:Hbody; intros [= <- <-];
        right; eauto.
    + intros [= <- <-]. right. eauto.
  - intros [= <- <-]. left. reflexivity.
Qed.

Section DispatcherRuns.

Variable api_key : string.

(** What a call leaves of the limiter state: the log written by the limiter,
    and a clock that has only moved on by the lags of the call. *)
Lemma dispatch_frame endpoint params e s :
  let r := make_opendota_request api_key endpoint params e s in
  let limited := (apply_rate_limit (lag_limiter e) s).2 in
  request_timestamps r.2 = request_timestamps limited ∧
  (clock r.2 = (clock limited + lag_lookup e)%Q
   ∨ clock r.2 = (clock limited + lag_lookup e + lag_fetch e)%Q).
Proof.
  cbv zeta.
  destruct (cache_check api_key endpoint params e s) as [hit|] eqn:Hcheck.
  - rewrite (dispatch_hit _ _ _ _ _ _ Hcheck). cbn. auto.
  - rewrite (dispatch_miss _ _ _ _ _ Hcheck). cbv zeta. cbn [snd].
    destruct (try_fetch_frame (cache_key api_key endpoint params) (upstream e)
                              (at_fetch e s)) as [-> ->].
    cbn. auto.
Qed.

(** X9.  A payload stored by a successful fetch is what a later call for the
    same endpoint and parameters returns, without any HTTP request, as long
    as its cache check takes place less than [CACHE_TTL] after the store. *)
Theorem fetch_then_hit endpoint params e1 e2 (idle : Q) s resp data :
  cache_check api_key endpoint params e1 s = None →
  upstream e1 = Responded resp →
  is_success resp = true →
  json_body resp = inl data →
  let r1 := make_opendota_request api_key endpoint params e1 s in
  let r2 := make_opendota_request api_key endpoint params e2 (elapse idle r1.2) in
  (clock (at_cache_check e2 (elapse idle r1.2)) - clock r1.2 < CACHE_TTL)%Q →
  r1.1.1 = Payload data ∧
  r2.1.1 = Payload data ∧
  (∀ url ps, HttpGet url ps ∉ r2.1.2) ∧
  api_cache r2.2 = api_cache r1.2.
Proof.
  intros Hmiss Hup Hok Hbody. cbv zeta.
  rewrite (dispatch_miss _ _ _ _ _ Hmiss). cbv zeta.
  unfold try_fetch. rewrite Hup, Hok, Hbody. cbn [fst snd].
  set (s1 := cache_store (cache_key api_key endpoint params) data (at_fetch e1 s)).
  intros Hfresh.
  assert (Hhit : cache_check api_key endpoint params e2 (elapse idle s1)
                 = Some data).
  { unfold cache_check. rewrite api_cache_at_cache_check.
    apply cache_lookup_Some. exists (clock s1). split; [|exact Hfresh].
    cbn. apply lookup_insert_eq. }
  rewrite (dispatch_hit _ _ _ _ _ _ Hhit). cbn [fst snd].
  split; [reflexivity|]. split; [reflexivity|].
  split; [intros url ps; apply apply_rate_limit_no_get|].
  rewrite api_cache_at_cache_check. reflexivity.
Qed.

Lemma try_fetch_inr key r s x s' :
  try_fetch key r s = (inr x, s') →
  exchange_raises r x ∨
  ∃ resp, r = Responded resp ∧ is_success resp = false
          ∧ x = HTTPStatusError (status_code resp) (text resp).
Proof.
  unfold try_fetch, exchange_raises. destruct r as [resp|x0].
  - destruct (is_success resp) eqn:Hok.
    + destruct (json_body resp) as [data|x0] eqn:Hbody; intros [= <- <-].
      left. right. eauto.
    + intros [= <- <-]. right. eauto.
  - intros [= <- <-]. left. left. reflexivity.
Qed.

(** X10.  A call is counted by the limiter once it has passed it, whatever
    happens afterwards: unless the sleep of the limiter is cancelled, the
    log becomes the timestamps younger than 60 seconds followed by the time
    read by the limiter, on a hit, a miss, an error or an exception alike; a
    call cancelled in that sleep leaves the log pruned and appends nothing.
    One HTTP request is sent when the cache check misses and the client is
    constructed, and none otherwise. *)
Theorem every_call_logged f endpoint params e s :
  let r := make_opendota_request_raising api_key f endpoint params e s in
  let kept := filter (fun t => (clock s - t < 60)%Q) (request_timestamps s) in
  let waited := (apply_rate_limit (lag_limiter e) s).1 in
  (cancelled_in_sleep f s →
     request_timestamps r.2 = kept ∧ (∀ url ps, HttpGet url ps ∉ r.1.2)) ∧
  (¬ cancelled_in_sleep f s →
     request_timestamps r.2
     = (kept ++ [clock (apply_rate_limit (lag_limiter e) s).2])%list ∧
     (∀ url ps, HttpGet url ps ∉ waited) ∧
     (cache_check api_key endpoint params e s = None → client_error f = None →
        r.1.2 = (waited ++ [HttpGet (OPENDOTA_API_BASE ++ "/" ++ endpoint)
                                    (request_params api_key params)])%list) ∧
     (is_Some (cache_check api_key endpoint params e s)
      ∨ is_Some (client_error f) → r.1.2 = waited)).
Proof.
  cbv zeta.
  change (filter (fun t => (clock s - t < 60)%Q) (request_timestamps s))
    with (recent (clock s) (request_timestamps s)).
  split.
  - intros Hcancel.
    destruct (dispatch_raising_cancelled api_key f endpoint params e s Hcancel)
      as (w & elapsed & d & _ & _ & ->). cbn.
    split; [reflexivity|]. intros url ps Hin.
    apply list_elem_of_singleton in Hin. discriminate.
  - intros Hnot.
    assert (Hlog : request_timestamps
                     (make_opendota_request_raising api_key f endpoint params e s).2
                   = (recent (clock s) (request_timestamps s)
                      ++ [clock (apply_rate_limit (lag_limiter e) s).2])%list).
    { destruct (cache_check api_key endpoint params e s) as [data|] eqn:Hcheck.
      - rewrite (dispatch_raising_hit _ _ _ _ _ _ _ Hnot Hcheck). cbn.
        apply apply_rate_limit_log.
      - destruct (client_error f) as [x|] eqn:Hclient.
        + rewrite (dispatch_raising_client _ _ _ _ _ _ _ Hnot Hcheck Hclient).
          cbn. apply apply_rate_limit_log.
        + destruct (close_error f) as [x|] eqn:Hclose.
          * rewrite (dispatch_raising_close _ _ _ _ _ _ _ Hnot Hcheck
                       Hclient Hclose). cbn [snd].
            destruct (try_fetch_frame (cache_key api_key endpoint params)
                        (upstream e) (at_fetch e s)) as [-> _].
            cbn. apply apply_rate_limit_log.
          * rewrite (dispatch_raising_try _ _ _ _ _ _ Hnot) by (right; auto).
            destruct (dispatch_frame endpoint params e s) as [-> _].
            apply apply_rate_limit_log. }
    split; [exact Hlog|].
    split; [intros url ps; apply apply_rate_limit_no_get|].
    split.
    + intros Hmiss Hclient.
      destruct (close_error f) as [x|] eqn:Hclose.
      * rewrite (dispatch_raising_close _ _ _ _ _ _ _ Hnot Hmiss Hclient Hclose).
        reflexivity.
      * rewrite (dispatch_raising_try _ _ _ _ _ _ Hnot) by (right; auto).
        rewrite (dispatch_miss _ _ _ _ _ Hmiss). reflexivity.
    + intros [[data Hhit]|[x Hclient]].
      * rewrite (dispatch_raising_hit _ _ _ _ _ _ _ Hnot Hhit). reflexivity.
      * destruct (cache_check api_key endpoint params e s) as [data|] eqn:Hcheck.
        -- rewrite (dispatch_raising_hit _ _ _ _ _ _ _ Hnot Hcheck). reflexivity.
        -- rewrite (dispatch_raising_client _ _ _ _ _ _ _ Hnot Hcheck Hclient).
           reflexivity.
Qed.

(** X11.  When a call raises instead of returning a value: always when the
    sleep of the limiter is cancelled, on a hit as on a miss; otherwise on a
    cache miss only, when the construction or the closing of the HTTP client
    raises, whatever the exception, or when the exchange inside the [try]
    block raises a condition outside [Exception].  Every other call returns
    a payload or an error dict. *)
Theorem raising_calls f endpoint params e s :
  let r := make_opendota_request_raising api_key f endpoint params e s in
  (cancelled_in_sleep f s →
     ∃ description, r.1.1 = Raised (Cancelled description)
                    ∧ api_cache r.2 = api_cache s) ∧
  (¬ cancelled_in_sleep f s →
     (∀ data, cache_check api_key endpoint params e s = Some data →
        r.1.1 = Payload data) ∧
     (cache_check api_key endpoint params e s = None →
        (∀ x, client_error f = Some x → r.1.1 = Raised x) ∧
        (∀ x, client_error f = None → close_error f = Some x →
           r.1.1 = Raised x) ∧
        (client_error f = None → close_error f = None →
           (is_Some (returned r.1.1) ↔
            ∀ description, ¬ exchange_raises (upstream e) (Cancelled description)) ∧
           (∀ x, r.1.1 = Raised x →
              (∃ description, x = Cancelled description)
              ∧ exchange_raises (upstream e) x)))).
Proof.
  cbv zeta. split.
  { intros Hcancel.
    destruct (dispatch_raising_cancelled api_key f endpoint params e s Hcancel)
      as (w & elapsed & d & _ & _ & ->). exists d. cbn. auto. }
  intros Hnot. split.
  { intros data Hhit.
    rewrite (dispatch_raising_hit _ _ _ _ _ _ _ Hnot Hhit). reflexivity. }
  intros Hmiss. split; [|split].
  { intros x Hclient.
    rewrite (dispatch_raising_client _ _ _ _ _ _ _ Hnot Hmiss Hclient).
    reflexivity. }
  { intros x Hclient Hclose.
    rewrite (dispatch_raising_close _ _ _ _ _ _ _ Hnot Hmiss Hclient Hclose).
    reflexivity. }
  intros Hclient Hclose.
  rewrite (dispatch_raising_try _ _ _ _ _ _ Hnot) by (right; auto).
  rewrite (dispatch_miss _ _ _ _ _ Hmiss). cbv zeta. cbn [fst].
  destruct (try_fetch (cache_key api_key endpoint params) (upstream e)
                      (at_fetch e s)) as [[data|x0] s3] eqn:Hfetch; cbn [fst].
  { split.
    - split; [|cbn; eauto]. intros _ d Hraise.
      rewrite (try_fetch_raises _ _ _ (Cancelled d)) in Hfetch by exact Hraise.
      discriminate.
    - intros x Hx. discriminate. }
  destruct (classify x0) as [c|] eqn:Hclass.
  { split.
    - split; [|cbn; eauto]. intros _ d Hraise.
      rewrite (try_fetch_raises _ _ _ (Cancelled d)) in Hfetch by exact Hraise.
      injection Hfetch as <- _. discriminate.
    - intros x Hx. discriminate. }
  apply classify_None in Hclass as [d ->].
  assert (Hraise : exchange_raises (upstream e) (Cancelled d)).
  { apply try_fetch_inr in Hfetch as [Hraise|(resp & _ & _ & Hstatus)];
      [exact Hraise|discriminate]. }
  split.
  - split.
    + intros [v Hv]. discriminate.
    + intros Hnone. destruct (Hnone d Hraise).
  - intros x [= <-]. split; [eauto|exact Hraise].
Qed.

End DispatcherRuns.

(** ** The limiter along runs of the dispatcher *)

Lemma suspension_positive now l w : suspension now l = Some w → (0 < w)%Q.
Proof.
  unfold suspension. repeat case_decide; try discriminate.
  intros [= <-]. assumption.
Qed.

Lemma apply_rate_limit_clock (lag : Q) (s : state) :
  (0 <= lag)%Q → (clock s <= clock (apply_rate_limit lag s).2)%Q.
Proof.
  intros Hlag. unfold apply_rate_limit.
  destruct (suspension _ _) as [w|] eqn:Hw; cbn; [|lra].
  apply suspension_positive in Hw. lra.
Qed.

Lemma apply_rate_limit_in_past (lag : Q) (s : state) :
  (0 <= lag)%Q → log_in_past s → log_in_past (apply_rate_limit lag s).2.
Proof.
  intros Hlag Hpast. unfold log_in_past in *.
  pose proof (apply_rate_limit_clock lag s Hlag) as Hclock.
  rewrite apply_rate_limit_log. apply Forall_app. split.
  - apply Forall_forall. intros t Ht. unfold recent in Ht.
    apply list_elem_of_filter in Ht as [_ Ht].
    rewrite Forall_forall in Hpast. specialize (Hpast t Ht). lra.
  - apply Forall_singleton. lra.
Qed.

Section LimiterRuns.

Variable api_key : string.

(** Induction along a run: a property of states kept by every admissible
    call, and a property of the events of each such call. *)
Lemma run_invariant
    (admissible : Q * string * option (list (string * value)) * env → Prop)
    (inv : state → Prop) (post : list event → Prop) :
  (∀ idle endpoint params e s,
     admissible (idle, endpoint, params, e) → inv s →
     let r := make_opendota_request api_key endpoint params e (elapse idle s) in
     inv r.2 ∧ post r.1.2) →
  ∀ calls s, Forall admissible calls → inv s →
    inv (run api_key calls s).2 ∧
    Forall (fun oe => post oe.2) (run api_key calls s).1.
Proof.
  intros Hstep calls. induction calls as [|[[[idle endpoint] params] e] rest IH];
    intros s Hcalls Hinv.
  { cbn. auto. }
  apply Forall_cons in Hcalls as [Hcall Hrest].
  specialize (Hstep idle endpoint params e s Hcall Hinv). cbv zeta in Hstep.
  cbn [run].
  destruct (make_opendota_request api_key endpoint params e (elapse idle s))
    as [[o evs] s1].
  destruct Hstep as [Hinv1 Hpost]. cbn in Hinv1, Hpost.
  specialize (IH s1 Hrest Hinv1).
  destruct (run api_key rest s1) as [os s2]. cbn in *.
  destruct IH as [Hinv2 Hposts]. split; [exact Hinv2|].
  apply Forall_cons. auto.
Qed.

Lemma dispatch_clock endpoint params e s :
  (0 <= lag_limiter e)%Q → (0 <= lag_lookup e)%Q → (0 <= lag_fetch e)%Q →
  (clock (apply_rate_limit (lag_limiter e) s).2
   <= clock (make_opendota_request api_key endpoint params e s).2)%Q.
Proof.
  intros Hl Hc Hf.
  destruct (dispatch_frame api_key endpoint params e s) as [_ [-> | ->]].
  - lra.
  - lra.
Qed.

Lemma dispatch_in_past endpoint params e s :
  (0 <= lag_limiter e)%Q → (0 <= lag_lookup e)%Q → (0 <= lag_fetch e)%Q →
  log_in_past s →
  log_in_past (make_opendota_request api_key endpoint params e s).2.
Proof.
  intros Hl Hc Hf Hpast.
  pose proof (apply_rate_limit_in_past _ _ Hl Hpast) as Hlim.
  pose proof (dispatch_clock endpoint params e s Hl Hc Hf) as Hclock.
  unfold log_in_past in *.
  destruct (dispatch_frame api_key endpoint params e s) as [-> _].
  eapply Forall_impl; [exact Hlim|]. cbn. intros t Ht. lra.
Qed.

Lemma elapse_in_past (d : Q) (s : state) :
  (0 <= d)%Q → log_in_past s → log_in_past (elapse d s).
Proof.
  intros Hd Hpast. unfold log_in_past in *. cbn.
  eapply Forall_impl; [exact Hpast|]. cbn. intros t Ht. lra.
Qed.

(** X12.  Along any sequence of dispatcher calls from the initial state,
    with time not running backwards, after every call at most
    [MAX_REQUESTS_PER_MINUTE] logged timestamps lie inside the window and
    the log holds at most one timestamp more than that. *)
Theorem run_log_bounded (t0 : Q)
    (calls : list (Q * string * option (list (string * value)) * env)) :
  Forall forward_call calls →
  ∀ n, let s := (run api_key (take n calls) (initial_state t0)).2 in
       (in_window s ≤ MAX_REQUESTS_PER_MINUTE)%nat ∧
       (length (request_timestamps s) ≤ S MAX_REQUESTS_PER_MINUTE)%nat.
Proof.
  intros Hcalls n. cbv zeta.
  apply (run_invariant forward_call
    (fun s => (in_window s ≤ MAX_REQUESTS_PER_MINUTE)%nat ∧
              (length (request_timestamps s) ≤ S MAX_REQUESTS_PER_MINUTE)%nat)
    (fun _ => True)).
  - intros idle endpoint params e s (Hidle & Hl & Hc & Hf) [Hwin _].
    cbv zeta. cbn in Hidle. cbn [snd] in Hl, Hc, Hf. split; [|exact I].
    pose proof (elapse_in_window idle s Hidle) as Hgap.
    assert (Hwin0 : (in_window (elapse idle s) ≤ MAX_REQUESTS_PER_MINUTE)%nat)
      by lia.
    pose proof (apply_rate_limit_in_window _ _ Hl Hwin0) as Hlim.
    pose proof (dispatch_clock endpoint params e (elapse idle s) Hl Hc Hf)
      as Hclock.
    destruct (dispatch_frame api_key endpoint params e (elapse idle s))
      as [Hlog _].
    split.
    + unfold in_window in *. rewrite Hlog.
      etrans; [apply recent_later, Hclock|exact Hlim].
    + rewrite Hlog, apply_rate_limit_log, length_app. cbn [length].
      unfold in_window in Hwin0. lia.
  - apply Forall_take, Hcalls.
  - cbn. unfold in_window. cbn. unfold MAX_REQUESTS_PER_MINUTE. lia.
Qed.

Lemma suspension_bounds now (log : list Q) w :
  Forall (fun t => (t <= now)%Q) log →
  suspension now (recent now log) = Some w →
  (1 # 10 < w)%Q ∧ (w <= 601 # 10)%Q.
Proof.
  intros Hpast Hw. unfold suspension in Hw.
  case_decide as Hfull; [|discriminate].
  case_decide as Hpos; [|discriminate]. injection Hw as <-.
  assert (Hne : recent now log ≠ []).
  { intros Hnil. rewrite Hnil in Hfull. cbn in Hfull.
    unfold MAX_REQUESTS_PER_MINUTE in Hfull. lia. }
  split; [apply time_to_wait_positive, Hne|].
  pose proof (list_min_elem _ Hne) as Hmin.
  apply list_elem_of_filter in Hmin as [_ Hmin].
  rewrite Forall_forall in Hpast. specialize (Hpast _ Hmin).
  unfold time_to_wait. lra.
Qed.

Lemma dispatch_sleep endpoint params e s w :
  Sleep w ∈ (make_opendota_request api_key endpoint params e s).1.2 →
  suspension (clock s) (recent (clock s) (request_timestamps s)) = Some w.
Proof.
  intros Hin.
  assert (Hwaited : Sleep w ∈ (apply_rate_limit (lag_limiter e) s).1).
  { destruct (cache_check api_key endpoint params e s) as [hit|] eqn:Hcheck.
    - rewrite (dispatch_hit _ _ _ _ _ _ Hcheck) in Hin. exact Hin.
    - rewrite (dispatch_miss _ _ _ _ _ Hcheck) in Hin. cbv zeta in Hin.
      cbn [fst snd] in Hin. apply elem_of_app in Hin as [Hin|Hin]; [exact Hin|].
      apply list_elem_of_singleton in Hin. discriminate. }
  unfold apply_rate_limit in Hwaited.
  destruct (suspension _ _) as [w'|]; cbn in Hwaited.
  - apply list_elem_of_singleton in Hwaited as [= ->]. reflexivity.
  - apply elem_of_nil in Hwaited. contradiction.
Qed.

(** X13.  The limiter only delays, and never for long: along any sequence
    of dispatcher calls from the initial state, with time not running
    backwards, every suspension lasts more than 0.1 and at most 60.1
    seconds. *)
Theorem run_suspension_bounded (t0 : Q)
    (calls : list (Q * string * option (list (string * value)) * env)) :
  Forall forward_call calls →
  ∀ o evs w, (o, evs) ∈ (run api_key calls (initial_state t0)).1 →
             Sleep w ∈ evs → (1 # 10 < w)%Q ∧ (w <= 601 # 10)%Q.
Proof.
  intros Hcalls o evs w Hin Hsleep.
  destruct (run_invariant forward_call log_in_past
    (fun evs => ∀ w, Sleep w ∈ evs → (1 # 10 < w)%Q ∧ (w <= 601 # 10)%Q))
    with (calls := calls) (s := initial_state t0) as [_ Hall].
  - intros idle endpoint params e s (Hidle & Hl & Hc & Hf) Hpast. cbv zeta.
    cbn in Hidle. cbn [snd] in Hl, Hc, Hf.
    pose proof (elapse_in_past idle s Hidle Hpast) as Hpast0. split.
    + apply dispatch_in_past; assumption.
    + intros w' Hw'. apply dispatch_sleep in Hw'.
      eapply suspension_bounds; [exact Hpast0|exact Hw'].
  - exact Hcalls.
  - apply Forall_nil_2.
  - rewrite Forall_forall in Hall. apply (Hall (o, evs) Hin w Hsleep).
Qed.

End LimiterRuns.

(** ** Calls spaced a second apart *)

Lemma StronglySorted_recent (now : Q) (l : list Q) :
  StronglySorted second_apart l → StronglySorted second_apart (recent now l).
Proof.
  unfold recent. induction 1 as [|t l Hsorted IH Hall]; [constructor|].
  rewrite filter_cons. case_decide; [|exact IH].
  constructor; [exact IH|].
  apply Forall_forall. intros x Hx. apply list_elem_of_filter in Hx as [_ Hx].
  rewrite Forall_forall in Hall. apply Hall, Hx.
Qed.

Lemma inject_nat_succ (n : nat) :
  (inject_Z (Z.of_nat (S n)) == inject_Z (Z.of_nat n) + 1)%Q.
Proof. rewrite Nat2Z.inj_succ, <- Z.add_1_r, inject_Z_plus. reflexivity. Qed.

(** Instants a second apart that all lie in [(lo, hi]] number fewer than
    [hi - lo + 1]. *)
Lemma spaced_count (l : list Q) (lo hi : Q) :
  StronglySorted second_apart l →
  Forall (fun t => (lo < t)%Q ∧ (t <= hi)%Q) l →
  l = [] ∨ (inject_Z (Z.of_nat (length l)) < hi - lo + 1)%Q.
Proof.
  intros Hsorted. revert lo.
  induction Hsorted as [|t l Hsorted IH Hall]; intros lo Hrange; [auto|].
  right. apply Forall_cons in Hrange as [[Hlo Hhi] Hrange].
  cbn [length]. rewrite inject_nat_succ.
  destruct (IH (lo + 1)%Q) as [->|Hlen].
  - apply Forall_forall. intros x Hx. rewrite Forall_forall in Hall, Hrange.
    specialize (Hall x Hx). specialize (Hrange x Hx). unfold second_apart in Hall.
    split; lra.
  - change (inject_Z (Z.of_nat (length (@nil Q)))) with 0%Q. lra.
  - lra.
Qed.

Lemma suspension_room now (l : list Q) :
  (length l < MAX_REQUESTS_PER_MINUTE)%nat → suspension now l = None.
Proof.
  intros Hroom. unfold suspension. rewrite decide_False by lia. reflexivity.
Qed.

Section SpacedRuns.

Variable api_key : string.

(** The log of a state whose calls were a second apart, when the next call
    starts a second later: fewer than [MAX_REQUESTS_PER_MINUTE] timestamps
    are younger than 60 seconds. *)
Lemma spaced_room (idle : Q) (s : state) :
  (1 <= idle)%Q →
  StronglySorted second_apart (request_timestamps s) → log_in_past s →
  (length (recent (clock s + idle) (request_timestamps s))
   < MAX_REQUESTS_PER_MINUTE)%nat.
Proof.
  intros Hidle Hsorted Hpast.
  destruct (spaced_count (recent (clock s + idle) (request_timestamps s))
              (clock s + idle - 60) (clock s + idle - 1)) as [->|Hlen].
  - apply StronglySorted_recent, Hsorted.
  - apply Forall_forall. intros t Ht. unfold recent in Ht.
    apply list_elem_of_filter in Ht as [Hage Ht].
    unfold log_in_past in Hpast. rewrite Forall_forall in Hpast.
    specialize (Hpast t Ht). split; lra.
  - cbn. unfold MAX_REQUESTS_PER_MINUTE. lia.
  - assert (Hq : (inject_Z (Z.of_nat (length (recent (clock s + idle)
                                             (request_timestamps s))))
                  < inject_Z 60)%Q).
    { eapply Qlt_le_trans; [exact Hlen|]. unfold inject_Z. lra. }
    rewrite <- Zlt_Qlt in Hq. unfold MAX_REQUESTS_PER_MINUTE. lia.
Qed.

(** X14.  Calls that each start at least one second after the previous one
    returned are never suspended by the limiter, however many they are. *)
Theorem spaced_calls_never_wait (t0 : Q)
    (calls : list (Q * string * option (list (string * value)) * env)) :
  Forall spaced_call calls →
  ∀ o evs w, (o, evs) ∈ (run api_key calls (initial_state t0)).1 →
             Sleep w ∉ evs.
Proof.
  intros Hcalls o evs w Hin.
  destruct (run_invariant api_key spaced_call
    (fun s => StronglySorted second_apart (request_timestamps s) ∧ log_in_past s)
    (fun evs => ∀ w, Sleep w ∉ evs))
    with (calls := calls) (s := initial_state t0) as [_ Hall].
  - intros idle endpoint params e s (Hidle & Hl & Hc & Hf) [Hsorted Hpast].
    cbv zeta. cbn in Hidle. cbn [snd] in Hl, Hc, Hf.
    pose proof (spaced_room idle s Hidle Hsorted Hpast) as Hroom.
    assert (Hidle0 : (0 <= idle)%Q) by lra.
    pose proof (elapse_in_past idle s Hidle0 Hpast) as Hpast0.
    split; [split|].
    + destruct (dispatch_frame api_key endpoint params e (elapse idle s))
        as [-> _].
      rewrite apply_rate_limit_log. apply StronglySorted_app.
      split; [|split].
      * intros x1 x2 Hx1 Hx2. apply list_elem_of_singleton in Hx2 as ->.
        unfold recent in Hx1. apply list_elem_of_filter in Hx1 as [_ Hx1].
        unfold log_in_past in Hpast. rewrite Forall_forall in Hpast.
        specialize (Hpast x1 Hx1). unfold second_apart.
        unfold apply_rate_limit. cbn [clock elapse request_timestamps].
        rewrite suspension_room by exact Hroom. cbn. lra.
      * apply StronglySorted_recent, Hsorted.
      * repeat constructor.
    + apply dispatch_in_past; assumption.
    + intros w' Hw'. apply dispatch_sleep in Hw'.
      cbn [clock elapse request_timestamps] in Hw'.
      rewrite suspension_room in Hw' by exact Hroom. discriminate.
  - exact Hcalls.
  - split; [constructor|apply Forall_nil_2].
  - rewrite Forall_forall in Hall. apply (Hall (o, evs) Hin w).
Qed.

End SpacedRuns.

(** ** The sweep and the callers *)

(** What a sweep leaves in the cache. *)
Lemma swept_lookup (s : state) key storedAt data :
  api_cache (cleanup_cache s).2 !! key = Some (storedAt, data) ↔
  api_cache s !! key = Some (storedAt, data)
  ∧ (clock s - storedAt < CACHE_TTL)%Q.
Proof.
  cbn. rewrite lookup_foldl_delete.
  destruct (decide (key ∈ _)) as [Hin|Hnin].
  - apply elem_of_expired_keys in Hin as (ts' & d' & Hk & Hexp). split.
    + discriminate.
    + intros [Hk' Hfresh]. rewrite Hk in Hk'. injection Hk' as -> ->.
      apply Qle_not_lt in Hexp. contradiction.
  - split; [|tauto]. intros Hk. split; [exact Hk|].
    apply Qnot_le_lt. intros Hexp. apply Hnin, elem_of_expired_keys.
    exists storedAt, data. auto.
Qed.

(** From the time of the sweep on, the cache check answers as if no sweep
    had taken place. *)
Lemma swept_cache_lookup (s : state) key (t : Q) :
  (clock s <= t)%Q →
  cache_lookup (api_cache (cleanup_cache s).2) key t
  = cache_lookup (api_cache s) key t.
Proof.
  intros Hlater. unfold cache_lookup.
  destruct (api_cache (cleanup_cache s).2 !! key) as [[ts d]|] eqn:Hafter.
  - apply swept_lookup in Hafter as [-> _]. reflexivity.
  - destruct (api_cache s !! key) as [[ts d]|] eqn:Hbefore; [|reflexivity].
    case_decide as Hfresh; [|reflexivity].
    assert (Hkept : api_cache (cleanup_cache s).2 !! key = Some (ts, d)).
    { apply swept_lookup. split; [exact Hbefore|]. lra. }
    rewrite Hafter in Hkept. discriminate.
Qed.

(** X15.  A second sweep at the same instant finds nothing to remove: it
    reports 0 entries removed and leaves the state as the first sweep left
    it. *)
Theorem cleanup_cache_idempotent (s : state) :
  cleanup_cache (cleanup_cache s).2
  = ((0, size (api_cache (cleanup_cache s).2)), (cleanup_cache s).2).
Proof.
  assert (Hnone : expired_keys (clock s) (api_cache (cleanup_cache s).2) = []).
  { apply elem_of_nil_inv. intros key Hin.
    apply elem_of_expired_keys in Hin as (ts & d & Hk & Hexp).
    apply swept_lookup in Hk as [_ Hfresh].
    apply Qle_not_lt in Hexp. contradiction. }
  unfold cleanup_cache at 1. cbn [clock snd cleanup_cache] in *.
  rewrite Hnone. reflexivity.
Qed.

Lemma cleanup_cache_with_cache (s : state) :
  (cleanup_cache s).2 = with_cache (api_cache (cleanup_cache s).2) s.
Proof. reflexivity. Qed.

Lemma apply_rate_limit_with_cache cache (lag : Q) (s : state) :
  apply_rate_limit lag (with_cache cache s)
  = ((apply_rate_limit lag s).1, with_cache cache (apply_rate_limit lag s).2).
Proof.
  unfold apply_rate_limit, with_cache. cbn.
  destruct (suspension _ _); reflexivity.
Qed.

Lemma try_fetch_result key r (s s' : state) :
  (try_fetch key r s).1 = (try_fetch key r s').1.
Proof.
  unfold try_fetch. destruct r as [resp|x]; [|reflexivity].
  destruct (is_success resp); [|reflexivity].
  destruct (json_body resp); reflexivity.
Qed.

Section Sweep.

Variable api_key : string.

(** X16.  The sweep is invisible to the callers: with time not running
    backwards, a call made at any time after a sweep has the outcome and the
    events of the same call made without the sweep. *)
Theorem sweep_invisible endpoint params e (idle : Q) s :
  (0 <= idle)%Q → (0 <= lag_limiter e)%Q → (0 <= lag_lookup e)%Q →
  (make_opendota_request api_key endpoint params e
     (elapse idle (cleanup_cache s).2)).1
  = (make_opendota_request api_key endpoint params e (elapse idle s)).1.
Proof.
  intros Hidle Hl Hc.
  set (cache := api_cache (cleanup_cache s).2).
  set (s0 := elapse idle s).
  assert (Hs0 : elapse idle (cleanup_cache s).2 = with_cache cache s0)
    by reflexivity.
  rewrite Hs0.
  assert (Hat : at_cache_check e (with_cache cache s0)
                = with_cache cache (at_cache_check e s0)).
  { unfold at_cache_check. rewrite apply_rate_limit_with_cache. reflexivity. }
  assert (Hwaited : (apply_rate_limit (lag_limiter e) (with_cache cache s0)).1
                    = (apply_rate_limit (lag_limiter e) s0).1).
  { rewrite apply_rate_limit_with_cache. reflexivity. }
  assert (Hcheck : cache_check api_key endpoint params e (with_cache cache s0)
                   = cache_check api_key endpoint params e s0).
  { unfold cache_check. rewrite Hat. cbn [with_cache api_cache clock].
    rewrite (api_cache_at_cache_check e s0). unfold cache.
    change (api_cache s0) with (api_cache s).
    apply swept_cache_lookup.
    pose proof (apply_rate_limit_clock (lag_limiter e) s0 Hl) as Hclock.
    unfold at_cache_check. cbn in *. lra. }
  destruct (cache_check api_key endpoint params e s0) as [data|] eqn:Hold.
  - rewrite (dispatch_hit _ _ _ _ _ _ Hcheck), (dispatch_hit _ _ _ _ _ _ Hold).
    cbn [fst]. rewrite Hwaited. reflexivity.
  - rewrite (dispatch_miss _ _ _ _ _ Hcheck), (dispatch_miss _ _ _ _ _ Hold).
    cbv zeta. cbn [fst]. rewrite Hwaited.
    rewrite (try_fetch_result _ _ (at_fetch e (with_cache cache s0))
                              (at_fetch e s0)).
    reflexivity.
Qed.

End Sweep.

(** ** Parsing a player *)

Lemma py_get_dict items key default :
  py_get (JDict items) key default
  = inr (from_option (fun v => v) default (dict_get items key)).
Proof. reflexivity. Qed.

Lemma py_get_not_dict x key default :
  (∀ items, x ≠ JDict items) →
  py_get x key default = inl (AttributeError (type_name x) "get").
Proof. intros Hx. destruct x; try reflexivity. destruct (Hx items). reflexivity. Qed.

(** X17.  [parse_player] fails exactly when the response carries a
    ["profile"] or an ["mmr_estimate"] that is not a dict (a [null], for
    instance): it then raises the [AttributeError] of the missing [get],
    the one of ["profile"] first; a missing field is no failure. *)
Theorem parse_player_raises (player_data : list (string * json)) :
  let profile := default (JDict []) (dict_get player_data "profile") in
  let mmr := default (JDict []) (dict_get player_data "mmr_estimate") in
  ((∀ items, profile ≠ JDict items) →
     parse_player player_data = inl (AttributeError (type_name profile) "get")) ∧
  ((∃ items, profile = JDict items) → (∀ items, mmr ≠ JDict items) →
     parse_player player_data = inl (AttributeError (type_name mmr) "get")) ∧
  ((∃ player, parse_player player_data = inr player) ↔
   (∃ items, profile = JDict items) ∧ (∃ items, mmr = JDict items)).
Proof.
  cbv zeta. unfold parse_player.
  change (from_option (fun v : json => v)) with (from_option (@id json)).
  set (profile := default (JDict []) (dict_get player_data "profile")).
  set (mmr := default (JDict []) (dict_get player_data "mmr_estimate")).
  assert (Hprofile : (∃ items, profile = JDict items)
                     ∨ ∀ items, profile ≠ JDict items).
  { destruct profile; eauto; right; intros; discriminate. }
  assert (Hmmr : (∃ items, mmr = JDict items) ∨ ∀ items, mmr ≠ JDict items).
  { destruct mmr; eauto; right; intros; discriminate. }
  destruct Hprofile as [[pitems Hp]|Hp].
  - rewrite Hp. rewrite !py_get_dict.
    destruct Hmmr as [[mitems Hm]|Hm].
    + rewrite Hm, py_get_dict.
      split; [intros Hno; destruct (Hno pitems); reflexivity|].
      split; [intros _ Hno; destruct (Hno mitems); reflexivity|].
      split; eauto.
    + rewrite (py_get_not_dict mmr) by exact Hm.
      split; [intros Hno; destruct (Hno pitems); reflexivity|].
      split; [reflexivity|].
      split; [intros [player Hplayer]; discriminate|].
      intros [_ [mitems Hmitems]]. destruct (Hm mitems Hmitems).
  - rewrite (py_get_not_dict profile) by exact Hp.
    split; [reflexivity|].
    split; [intros [pitems Hpitems]; destruct (Hp pitems Hpitems)|].
    split; [intros [player Hplayer]; discriminate|].
    intros [[pitems Hpitems] _]. destruct (Hp pitems Hpitems).
Qed.

(** X18.  A parsed player always has an account id: a missing or [null]
    ["account_id"] becomes 0 and any other value is kept as it is; [is_pro]
    is the truth value of the field, [False] when it is missing. *)
Theorem parse_player_account_id (player_data : list (string * json)) player :
  parse_player player_data = inr player →
  Player.account_id player ≠ JNull ∧
  (dict_get player_data "account_id" = None
   ∨ dict_get player_data "account_id" = Some JNull →
     Player.account_id player = JNum 0) ∧
  (∀ v, dict_get player_data "account_id" = Some v → v ≠ JNull →
     Player.account_id player = v) ∧
  Player.is_pro player
  = truthy (default (JBool false) (dict_get player_data "is_pro")).
Proof.
  unfold parse_player.
  repeat match goal with
         | |- context [match py_get ?x ?k ?d with _ => _ end] =>
             destruct (py_get x k d); [discriminate|]
         end.
  intros [= <-]. cbn.
  destruct (dict_get player_data "account_id") as [v|] eqn:Hid; cbn.
  - split; [destruct v; discriminate|].
    split; [intros [Hnone|[= ->]]; [discriminate|reflexivity]|].
    split; [|reflexivity].
    intros v' [= <-] Hv. destruct v; congruence.
  - split; [discriminate|]. split; [reflexivity|].
    split; [intros v' Hv'; discriminate|reflexivity].
Qed.

(** ** Fragments of the tools *)

(** X19.  For a limit that is not negative, the matches selected are the
    first [min limit 20] of the list: never more than 20 and never more than
    the list holds. *)
Theorem matches_to_process_cap (limit : Z) (recent_matches : list json) :
  (0 ≤ limit)%Z →
  matches_to_process limit recent_matches
  = take (Z.to_nat (Z.min limit 20)) recent_matches ∧
  length (matches_to_process limit recent_matches)
  = Nat.min (Z.to_nat (Z.min limit 20)) (length recent_matches) ∧
  (length (matches_to_process limit recent_matches) ≤ 20)%nat.
Proof.
  intros Hlimit.
  assert (Heq : matches_to_process limit recent_matches
                = take (Z.to_nat (Z.min limit 20)) recent_matches).
  { unfold matches_to_process, slice_to.
    destruct (20 <? limit)%Z eqn:Hcap.
    - apply Z.ltb_lt in Hcap. cbn. f_equal. lia.
    - apply Z.ltb_ge in Hcap.
      destruct (limit <? 0)%Z eqn:Hneg; [apply Z.ltb_lt in Hneg; lia|].
      f_equal. lia. }
  rewrite Heq, length_take. repeat split; lia.
Qed.

(** X20.  A negative limit is not capped: it removes that many matches from
    the end of the list, so the number of matches selected is the length of
    the list minus the absolute value of the limit, whatever that length. *)
Theorem matches_to_process_negative (limit : Z) (recent_matches : list json) :
  (limit < 0)%Z →
  matches_to_process limit recent_matches
  = take (length recent_matches - Z.to_nat (- limit)) recent_matches ∧
  length (matches_to_process limit recent_matches)
  = (length recent_matches - Z.to_nat (- limit))%nat.
Proof.
  intros Hlimit.
  assert (Heq : matches_to_process limit recent_matches
                = take (length recent_matches - Z.to_nat (- limit)) recent_matches).
  { unfold matches_to_process, slice_to.
    destruct (20 <? limit)%Z eqn:Hcap; [apply Z.ltb_lt in Hcap; lia|].
    destruct (limit <? 0)%Z eqn:Hneg; [|apply Z.ltb_ge in Hneg; lia].
    f_equal. lia. }
  rewrite Heq, length_take. split; [reflexivity|lia].
Qed.

(** X21.  A match whose ["radiant_win"] is missing or [null] is never shown
    as won, on whichever side the player was. *)
Theorem win_needs_radiant_win (items : list (string * json)) :
  dict_get items "radiant_win" = None
  ∨ dict_get items "radiant_win" = Some JNull →
  win (JDict items) ≠ inr "Won" ∧
  (∀ slot, dict_get items "player_slot" = Some (JNum slot) →
     win (JDict items) = inr "Lost") ∧
  (dict_get items "player_slot" = None → win (JDict items) = inr "Lost").
Proof.
  intros Hrw. unfold win. rewrite !py_get_dict.
  assert (Hnull : from_option (fun v => v) JNull (dict_get items "radiant_win")
                  = JNull).
  { destruct Hrw as [-> | ->]; reflexivity. }
  rewrite Hnull.
  split; [|split].
  - destruct (lt_int _ 128) as [err|radiant]; [discriminate|].
    cbn. discriminate.
  - intros slot ->. reflexivity.
  - intros ->. reflexivity.
Qed.

(** X22.  With a boolean ["radiant_win"] and an integer ["player_slot"] the
    match is shown as won exactly when the side of the player, radiant for
    a slot below 128, is the side that won; a ["player_slot"] that is
    [null] or a string makes the comparison raise a [TypeError]. *)
Theorem win_result (items : list (string * json)) (radiant_win : bool) :
  dict_get items "radiant_win" = Some (JBool radiant_win) →
  (∀ slot, dict_get items "player_slot" = Some (JNum slot) →
     win (JDict items)
     = inr (if Bool.eqb radiant_win (slot <? 128)%Z then "Won" else "Lost")) ∧
  (dict_get items "player_slot" = None →
     win (JDict items) = inr (if radiant_win then "Won" else "Lost")) ∧
  (∀ v, dict_get items "player_slot" = Some v →
     v = JNull ∨ (∃ text, v = JStr text) →
     ∃ description, win (JDict items) = inl (TypeError description)).
Proof.
  intros Hrw. unfold win. rewrite !py_get_dict, Hrw. cbn.
  split; [|split].
  - intros slot ->. reflexivity.
  - intros ->. cbn. destruct radiant_win; reflexivity.
  - intros v -> [->|[text ->]]; cbn; eauto.
Qed.

(** ** The further properties at concrete inputs *)

Lemma format_rank_tier_medals_witness :
  (10 ≤ 54 < 90)%Z ∧ (10 ≤ 45 < 90)%Z ∧
  format_rank_tier (Some 54%Z) = "Legend 4" ∧
  format_rank_tier (Some 54%Z) ≠ format_rank_tier (Some 45%Z).
Proof.
  assert (H1 : (10 ≤ 54 < 90)%Z) by lia.
  assert (H2 : (10 ≤ 45 < 90)%Z) by lia.
  destruct (format_rank_tier_medals 54%Z 45%Z H1 H2) as (Hiff & Hname & _).
  split; [exact H1|]. split; [exact H2|]. split.
  - rewrite Hname by lia. vm_compute. reflexivity.
  - intros Heq. apply Hiff in Heq. lia.
Defined.

Lemma format_duration_inj_witness :
  format_duration 125%Z = format_duration (60 * 2 + 5)%Z ∧ (125 = 60 * 2 + 5)%Z.
Proof.
  assert (Heq : format_duration 125%Z = format_duration (60 * 2 + 5)%Z)
    by reflexivity.
  split; [exact Heq|]. exact (format_duration_inj _ _ Heq).
Defined.

Lemma format_duration_minutes_seconds_witness :
  (0 ≤ 7 < 60)%Z ∧ format_duration (60 * 61 + 7)%Z = "61:07".
Proof.
  assert (Hr : (0 ≤ 7 < 60)%Z) by lia.
  split; [exact Hr|].
  destruct (format_duration_minutes_seconds 61%Z 7%Z Hr) as (-> & _).
  vm_compute. reflexivity.
Defined.

Lemma cache_key_without_credential_witness :
  Dict.wf (default [] (Some Sample.paramsA)) ∧
  cache_key "" "players/1/matches" (Some Sample.paramsA)
  = get_cache_key "players/1/matches" (Some Sample.paramsA).
Proof.
  assert (Hwf : Dict.wf (default [] (Some Sample.paramsA))) by solve_wf.
  split; [exact Hwf|].
  exact (cache_key_without_credential "players/1/matches"
           (Some Sample.paramsA) Hwf).
Defined.

Lemma cache_key_with_credential_witness :
  "k3y" ≠ "" ∧ Dict.wf (default [] (Some Sample.two_params)) ∧
  ("api_key" ∉ (default [] (Some Sample.two_params)).*1) ∧
  cache_key "k3y" "search" (Some Sample.two_params)
  = "search?api_key=k3y&q=a&r=b".
Proof.
  assert (Hkey : "k3y" ≠ "") by discriminate.
  assert (Hwf : Dict.wf (default [] (Some Sample.two_params))) by solve_wf.
  assert (Hnew : "api_key" ∉ (default [] (Some Sample.two_params)).*1).
  { cbn. rewrite !not_elem_of_cons. repeat split; try discriminate.
    apply not_elem_of_nil. }
  split; [exact Hkey|]. split; [exact Hwf|]. split; [exact Hnew|].
  destruct (cache_key_with_credential "k3y" "search" (Some Sample.two_params)
              Hkey Hwf Hnew) as [_ ->].
  vm_compute. reflexivity.
Defined.

Lemma caller_api_key_overrides_witness :
  Dict.wf [("q", VStr "a"); ("api_key", VStr "mine")] ∧
  "api_key" ∈ [("q", VStr "a"); ("api_key", VStr "mine")].*1 ∧
  cache_key "k3y" "search" (Some [("q", VStr "a"); ("api_key", VStr "mine")])
  = "search?api_key=mine&q=a".
Proof.
  assert (Hwf : Dict.wf [("q", VStr "a"); ("api_key", VStr "mine")]) by solve_wf.
  assert (Hin : "api_key" ∈ [("q", VStr "a"); ("api_key", VStr "mine")].*1).
  { cbn. right. left. }
  split; [exact Hwf|]. split; [exact Hin|].
  destruct (caller_api_key_overrides "k3y" "search" _ Hwf Hin) as [_ ->].
  vm_compute. reflexivity.
Defined.

Lemma fetch_then_hit_witness :
  cache_check "" "players/1" None (Sample.ok Sample.wins) (initial_state 0)
  = None ∧
  (make_opendota_request "" "players/1" None
     (Sample.failing (ConnectError "unreachable"))
     (elapse 10 (make_opendota_request "" "players/1" None
                   (Sample.ok Sample.wins) (initial_state 0)).2)).1.1
  = Payload Sample.wins.
Proof.
  assert (Hmiss : cache_check "" "players/1" None (Sample.ok Sample.wins)
                    (initial_state 0) = None) by reflexivity.
  split; [exact Hmiss|].
  apply (fetch_then_hit "" "players/1" None (Sample.ok Sample.wins)
           (Sample.failing (ConnectError "unreachable")) 10 (initial_state 0)
           (Response 200 "{}" (inl Sample.wins)) Sample.wins
           Hmiss eq_refl eq_refl eq_refl).
  vm_compute. reflexivity.
Defined.

Lemma burst_forward : Forall forward_call Sample.burst.
Proof.
  unfold Sample.burst. apply Forall_cons. split.
  - repeat split; cbn; lra.
  - apply Forall_replicate. repeat split; cbn; lra.
Defined.

Lemma run_log_bounded_witness :
  Forall forward_call Sample.burst ∧
  (length (request_timestamps
             (run "" (take 61 Sample.burst) (initial_state 0)).2)
   ≤ S MAX_REQUESTS_PER_MINUTE)%nat.
Proof.
  split; [exact burst_forward|].
  exact (proj2 (run_log_bounded "" 0 Sample.burst burst_forward 61)).
Defined.

Lemma run_suspension_bounded_witness :
  Forall forward_call Sample.burst ∧
  (Payload Sample.wins, [Sleep (601 # 10)])
    ∈ (run "" Sample.burst (initial_state 0)).1 ∧
  (1 # 10 < 601 # 10)%Q ∧ (601 # 10 <= 601 # 10)%Q.
Proof.
  assert (Hin : (Payload Sample.wins, [Sleep (601 # 10)])
                  ∈ (run "" Sample.burst (initial_state 0)).1).
  { apply list_elem_of_lookup. exists 60. vm_compute. reflexivity. }
  split; [exact burst_forward|]. split; [exact Hin|].
  apply (run_suspension_bounded "" 0 Sample.burst burst_forward
           (Payload Sample.wins) [Sleep (601 # 10)] (601 # 10) Hin).
  left.
Defined.

Lemma spaced_calls_never_wait_witness :
  Forall spaced_call (replicate 70 (1%Q, "health", None, Sample.ok Sample.wins)) ∧
  (Payload Sample.wins, [])
    ∈ (run "" (replicate 70 (1%Q, "health", None, Sample.ok Sample.wins))
           (initial_state 0)).1 ∧
  Sleep (601 # 10) ∉ @nil event.
Proof.
  assert (Hcalls : Forall spaced_call
            (replicate 70 (1%Q, "health", None, Sample.ok Sample.wins))).
  { apply Forall_replicate. repeat split; cbn; lra. }
  assert (Hin : (Payload Sample.wins, [])
                  ∈ (run "" (replicate 70 (1%Q, "health", None,
                                           Sample.ok Sample.wins))
                         (initial_state 0)).1).
  { apply list_elem_of_lookup. exists 65. vm_compute. reflexivity. }
  split; [exact Hcalls|]. split; [exact Hin|].
  exact (spaced_calls_never_wait "" 0 _ Hcalls _ _ (601 # 10) Hin).
Defined.

Lemma sweep_invisible_witness :
  (0 <= 400)%Q ∧
  (make_opendota_request "" "players/1" None (Sample.ok Sample.other)
     (elapse 400 (cleanup_cache Sample.warm).2)).1
  = (Payload Sample.other, [HttpGet "https://api.opendota.com/api/players/1" []]).
Proof.
  assert (Hidle : (0 <= 400)%Q) by (cbn; lra).
  split; [exact Hidle|].
  rewrite (sweep_invisible "" "players/1" None (Sample.ok Sample.other) 400
             Sample.warm Hidle); [|cbn; lra..].
  vm_compute. reflexivity.
Defined.

Lemma parse_player_account_id_witness :
  parse_player [("account_id", JNull); ("is_pro", JNum 1)]
  = inr (Player.Make (JNum 0) JNull JNull JNull JNull JNull JNull JNull JNull
                     true JNull JNull) ∧
  Player.account_id
    (Player.Make (JNum 0) JNull JNull JNull JNull JNull JNull JNull JNull
                 true JNull JNull) = JNum 0.
Proof.
  assert (Hparse : parse_player [("account_id", JNull); ("is_pro", JNum 1)]
    = inr (Player.Make (JNum 0) JNull JNull JNull JNull JNull JNull JNull JNull
                       true JNull JNull)) by reflexivity.
  split; [exact Hparse|].
  destruct (parse_player_account_id _ _ Hparse) as (_ & Hzero & _).
  apply Hzero. right. reflexivity.
Defined.

Lemma matches_to_process_cap_witness :
  (0 ≤ 25)%Z ∧
  length (matches_to_process 25 (replicate 100 JNull)) = 20.
Proof.
  assert (Hlimit : (0 ≤ 25)%Z) by lia.
  split; [exact Hlimit|].
  destruct (matches_to_process_cap 25 (replicate 100 JNull) Hlimit)
    as (_ & -> & _).
  reflexivity.
Defined.

Lemma matches_to_process_negative_witness :
  (-1 < 0)%Z ∧
  length (matches_to_process (-1) (replicate 100 JNull)) = 99.
Proof.
  assert (Hlimit : (-1 < 0)%Z) by lia.
  split; [exact Hlimit|].
  destruct (matches_to_process_negative (-1) (replicate 100 JNull) Hlimit)
    as (_ & ->).
  reflexivity.
Defined.

Lemma win_needs_radiant_win_witness :
  dict_get [("player_slot", JNum 3); ("match_id", JNum 7)] "radiant_win" = None ∧
  win (JDict [("player_slot", JNum 3); ("match_id", JNum 7)]) = inr "Lost".
Proof.
  assert (Hrw : dict_get [("player_slot", JNum 3); ("match_id", JNum 7)]
                         "radiant_win" = None) by reflexivity.
  split; [exact Hrw|].
  destruct (win_needs_radiant_win _ (or_introl Hrw)) as (_ & Hslot & _).
  apply (Hslot 3%Z). reflexivity.
Defined.

Lemma win_result_witness :
  dict_get [("radiant_win", JBool false); ("player_slot", JNum 130)]
           "radiant_win" = Some (JBool false) ∧
  win (JDict [("radiant_win", JBool false); ("player_slot", JNum 130)])
  = inr "Won".
Proof.
  assert (Hrw : dict_get [("radiant_win", JBool false); ("player_slot", JNum 130)]
                         "radiant_win" = Some (JBool false)) by reflexivity.
  split; [exact Hrw|].
  destruct (win_result _ _ Hrw) as (Hslot & _).
  rewrite (Hslot 130%Z) by reflexivity. reflexivity.
Defined.

(** ** Exceptions outside the [try] block, at concrete inputs *)

(** A call that meets no exception outside the [try] block is the call
    [make_opendota_request] describes. *)
Lemma raising_no_faults api_key endpoint params e s :
  make_opendota_request_raising api_key no_faults endpoint params e s
  = make_opendota_request api_key endpoint params e s.
Proof.
  apply dispatch_raising_try.
  - intros [_ [x Hx]]. discriminate.
  - right. split; reflexivity.
Qed.

(** The 61st call of a burst, cancelled 5 seconds into the sleep of the
    limiter: the cancellation leaves the dispatcher although the cache holds
    a fresh entry, and the log keeps its 60 timestamps with none added. *)
Example cancelled_in_limiter :
  let s := (run "" (take 60 Sample.burst) (initial_state 0)).2 in
  let r := make_opendota_request_raising ""
             (Faults (Some (5%Q, "cancelled")) None None) "players/1" None
             (Sample.failing (ConnectError "unreachable")) s in
  cache_check "" "players/1" None (Sample.failing (ConnectError "unreachable")) s
  = Some Sample.wins ∧
  r.1 = (Raised (Cancelled "cancelled"), [Sleep (601 # 10)]) ∧
  length (request_timestamps r.2) = 60 ∧
  request_timestamps r.2 = request_timestamps s.
Proof. vm_compute. repeat split; reflexivity. Qed.

(** A client that cannot be constructed: the exception leaves the
    dispatcher unchanged and no request is sent. *)
Example client_construction_fails :
  (make_opendota_request_raising ""
     (Faults None (Some (InternalFault "Unknown scheme for proxy URL")) None)
     "health" None (Sample.ok Sample.wins) (initial_state 0)).1
  = (Raised (InternalFault "Unknown scheme for proxy URL"), []).
Proof. vm_compute. reflexivity. Qed.
